(** * Pomodoro timer and task list: a shallow embedding of [src/app/index.tsx]

    The screen component [PomodoroScreen] keeps its state in React hooks and
    changes it through event handlers and one timer effect.  Each handler is
    embedded as a function on an explicit state record; the effect is a
    function that is re-run after every state change, as React re-runs it.

    The seconds and minutes of the timer are JavaScript numbers, that is
    binary64 values: they are embedded as [JS.number], an integer, an
    infinity or NaN, with the rounding of binary64 written out.  Counters and
    keys, which cannot leave the range of exact integers, are [Z].  A string
    is embedded as the bytes of its UTF-8 encoding. *)

From Stdlib Require Import ZArith QArith Qround Qcanon List String Ascii Bool Lia.
From Stdlib Require Import Permutation Sorted Floats.
Import ListNotations.

Open Scope string_scope.
Open Scope Z_scope.

(** ** The JavaScript built-ins the screen calls *)

Module JS.

(** *** Numbers *)

(** A number whose value is an integer, or an infinity, or NaN.  The two
    zeros of binary64 are one value here: the screen never divides by zero
    and so cannot tell them apart. *)
Inductive number : Type :=
| Fin (z : Z)
| PosInf
| NegInf
| NaN.

Coercion Fin : Z >-> number.

(** [a / d] rounded to the nearest integer, a tie to the even one
    ([0 <= a], [0 < d]). *)
Definition roundHalfEven (a d : Z) : Z :=
  let q := a / d in
  let r := a mod d in
  if 2 * r <? d then q
  else if d <? 2 * r then q + 1
  else if Z.even q then q else q + 1.

(** The magnitude of the binary64 value nearest to the integer [a >= 0]:
    below 2^53 every integer is a binary64 value; from there on a value has
    53 significant bits. *)
Definition roundMagnitude (a : Z) : Z :=
  if a <? 2 ^ 53 then a
  else let e := Z.log2 a - 52 in roundHalfEven a (2 ^ e) * 2 ^ e.

(** The binary64 value nearest to the integer [z]; from 2^1024 on it is an
    infinity. *)
Definition roundToDouble (z : Z) : number :=
  let m := roundMagnitude (Z.abs z) in
  if 2 ^ 1024 <=? m then (if z <? 0 then NegInf else PosInf)
  else Fin (Z.sgn z * m).

Arguments roundToDouble : simpl never.

(** [z] is a binary64 value. *)
Definition isDouble (z : Z) : Prop := roundToDouble z = Fin z.

(** A number the screen can hold. *)
Definition isNumber (a : number) : Prop :=
  match a with
  | Fin z => isDouble z
  | _ => True
  end.

(** [a - b] *)
Definition sub (a b : number) : number :=
  match a, b with
  | NaN, _ | _, NaN => NaN
  | Fin x, Fin y => roundToDouble (x - y)
  | PosInf, PosInf | NegInf, NegInf => NaN
  | PosInf, _ | _, NegInf => PosInf
  | NegInf, _ | _, PosInf => NegInf
  end.

(** The sign of a number that is not NaN, as -1, 0 or 1. *)
Definition sign (a : number) : Z :=
  match a with
  | Fin z => Z.sgn z
  | PosInf => 1
  | NegInf => -1
  | NaN => 0
  end.

(** [a * b] *)
Definition mul (a b : number) : number :=
  match a, b with
  | NaN, _ | _, NaN => NaN
  | Fin x, Fin y => roundToDouble (x * y)
  | _, _ =>
      match sign a * sign b with
      | 0 => NaN
      | Zpos _ => PosInf
      | Zneg _ => NegInf
      end
  end.

(** [a < b] *)
Definition ltb (a b : number) : bool :=
  match a, b with
  | NaN, _ | _, NaN => false
  | Fin x, Fin y => x <? y
  | NegInf, NegInf | PosInf, _ => false
  | NegInf, _ => true
  | Fin _, PosInf => true
  | Fin _, NegInf => false
  end.

(** [a === b] *)
Definition eqb (a b : number) : bool :=
  match a, b with
  | Fin x, Fin y => x =? y
  | PosInf, PosInf | NegInf, NegInf => true
  | _, _ => false
  end.

(** [a <= b] *)
Definition leb (a b : number) : bool := ltb a b || eqb a b.

Definition le (a b : number) : Prop := leb a b = true.

(** [Number.isNaN(a)] *)
Definition isNaN (a : number) : bool :=
  match a with NaN => true | _ => false end.

(** The value of a division: a binary64 value as a rational, an infinity or
    NaN. *)
Inductive ratio : Type :=
| Ratio (q : Q)
| RatioPosInf
| RatioNegInf
| RatioNaN.

(** The binary64 value nearest to the rational [q]: 53 significant bits, and
    below 2^-1022 multiples of 2^-1074. *)
Definition roundQ (q : Q) : ratio :=
  let n := Qnum (Qred q) in
  let d := Zpos (Qden (Qred q)) in
  if n =? 0 then Ratio 0
  else
    let a := Z.abs n in
    let e0 := Z.log2 a - Z.log2 d in
    let e := if (if 0 <=? e0 then d * 2 ^ e0 <=? a else d <=? a * 2 ^ (- e0))
             then e0 else e0 - 1 in
    let p := Z.max (e - 52) (-1074) in
    let m := if 0 <=? p then roundHalfEven a (d * 2 ^ p)
             else roundHalfEven (a * 2 ^ (- p)) d in
    if (0 <=? p) && (2 ^ 1024 <=? m * 2 ^ p)
    then (if n <? 0 then RatioNegInf else RatioPosInf)
    else Ratio (Qred (if 0 <=? p then inject_Z (Z.sgn n * (m * 2 ^ p))
                      else Qmake (Z.sgn n * m) (Z.to_pos (2 ^ (- p))))).

Arguments roundQ : simpl never.

(** [a / b] *)
Definition div (a b : number) : ratio :=
  match a, b with
  | NaN, _ | _, NaN => RatioNaN
  | Fin x, Fin y =>
      if y =? 0
      then (if x =? 0 then RatioNaN else if 0 <? x then RatioPosInf else RatioNegInf)
      else roundQ (inject_Z x / inject_Z y)
  | Fin _, _ => Ratio 0
  | _, Fin y =>
      match sign a * (if y <? 0 then -1 else 1) with
      | Zneg _ => RatioNegInf
      | _ => RatioPosInf
      end
  | _, _ => RatioNaN
  end.

(** The rational a primitive float stands for, to compare the rounding above
    with the arithmetic of the machine. *)
Definition rationalOfFloat (f : float) : ratio :=
  match Prim2SF f with
  | S754_zero _ => Ratio 0
  | S754_finite s m e =>
      let v := if 0 <=? e then inject_Z (Zpos m * 2 ^ e)
               else Qmake (Zpos m) (Z.to_pos (2 ^ (- e))) in
      Ratio (Qred (if s then Qopp v else v))
  | S754_infinity s => if s then RatioNegInf else RatioPosInf
  | S754_nan => RatioNaN
  end.

(** The primitive float of an integer binary64 value of magnitude below
    2^63. *)
Definition floatOfInteger (z : Z) : float :=
  if z <? 0 then PrimFloat.opp (PrimFloat.of_uint63 (Uint63.of_Z (- z)))
  else PrimFloat.of_uint63 (Uint63.of_Z z).

Definition ratioOfNumber (a : number) : ratio :=
  match a with
  | Fin z => Ratio (inject_Z z)
  | PosInf => RatioPosInf
  | NegInf => RatioNegInf
  | NaN => RatioNaN
  end.

Definition ratio_eqb (a b : ratio) : bool :=
  match a, b with
  | Ratio x, Ratio y => Qeq_bool x y
  | RatioPosInf, RatioPosInf | RatioNegInf, RatioNegInf | RatioNaN, RatioNaN => true
  | _, _ => false
  end.

(** Integer binary64 values, small and large, on which the two are
    compared. *)
Definition sampleIntegers : list Z :=
  map Z.of_nat (seq 0 61)
  ++ [1499; 1500; 6000; 600479950316067; 150119987579017;
      2 ^ 53 - 1; 2 ^ 53; 2 ^ 53 + 2; 2 ^ 53 + 4; 9007199254741020;
      2 ^ 54; 2 ^ 54 + 4; 36028797018964016; 2 ^ 55; 3 * 2 ^ 61;
      2 ^ 62; 2 ^ 62 + 2 ^ 11].

Definition agreesWithMachine (x y : Z) : bool :=
  ratio_eqb (ratioOfNumber (sub x y))
            (rationalOfFloat (PrimFloat.sub (floatOfInteger x) (floatOfInteger y)))
  && ratio_eqb (ratioOfNumber (mul x y))
               (rationalOfFloat (PrimFloat.mul (floatOfInteger x) (floatOfInteger y)))
  && ratio_eqb (div x y)
               (rationalOfFloat (PrimFloat.div (floatOfInteger x) (floatOfInteger y))).

(** *** Strings *)

(** The string with the given bytes. *)
Fixpoint bytes (l : list N) : string :=
  match l with
  | [] => EmptyString
  | b :: l' => String (ascii_of_N b) (bytes l')
  end.

(** The code points [String.prototype.trim] and [parseInt] skip, each as its
    UTF-8 encoding: the [WhiteSpace] and [LineTerminator] of ECMAScript, which
    are TAB, LF, VT, FF, CR, SP, U+00A0, U+1680, U+2000 to U+200A, U+2028,
    U+2029, U+202F, U+205F, U+3000 and U+FEFF. *)
Definition whiteSpaces : list string :=
  map bytes
      [ [0x09]; [0x0A]; [0x0B]; [0x0C]; [0x0D]; [0x20];
        [0xC2; 0xA0];
        [0xE1; 0x9A; 0x80];
        [0xE2; 0x80; 0x80]; [0xE2; 0x80; 0x81]; [0xE2; 0x80; 0x82];
        [0xE2; 0x80; 0x83]; [0xE2; 0x80; 0x84]; [0xE2; 0x80; 0x85];
        [0xE2; 0x80; 0x86]; [0xE2; 0x80; 0x87]; [0xE2; 0x80; 0x88];
        [0xE2; 0x80; 0x89]; [0xE2; 0x80; 0x8A];
        [0xE2; 0x80; 0xA8]; [0xE2; 0x80; 0xA9];
        [0xE2; 0x80; 0xAF];
        [0xE2; 0x81; 0x9F];
        [0xE3; 0x80; 0x80];
        [0xEF; 0xBB; 0xBF] ]%N.

(** [s] is one white space code point. *)
Definition isWhiteSpace (s : string) : bool := existsb (String.eqb s) whiteSpaces.

Definition code (c : ascii) : N := N_of_ascii c.

Definition isAsciiWhiteSpace (c : ascii) : bool :=
  (((0x09 <=? code c) && (code c <=? 0x0D)) || (code c =? 0x20))%N.

(** The first byte of a white space of three bytes, and the three bytes of
    one. *)
Definition isLead3 (a : N) : bool :=
  ((a =? 0xE1) || (a =? 0xE2) || (a =? 0xE3) || (a =? 0xEF))%N.

Definition isWhiteSpace3 (a b c : N) : bool :=
  ((a =? 0xE1) && (b =? 0x9A) && (c =? 0x80)
   || (a =? 0xE2) && (b =? 0x80)
      && (((0x80 <=? c) && (c <=? 0x8A)) || (c =? 0xA8) || (c =? 0xA9) || (c =? 0xAF))
   || (a =? 0xE2) && (b =? 0x81) && (c =? 0x9F)
   || (a =? 0xE3) && (b =? 0x80) && (c =? 0x80)
   || (a =? 0xEF) && (b =? 0xBB) && (c =? 0xBF))%N.

(** What follows the white space code point [s] starts with, if there is
    one. *)
Definition afterWhiteSpace (s : string) : option string :=
  match s with
  | EmptyString => None
  | String a r1 =>
      if isAsciiWhiteSpace a then Some r1
      else if (code a =? 0xC2)%N then
        match r1 with
        | String b r2 => if (code b =? 0xA0)%N then Some r2 else None
        | EmptyString => None
        end
      else if isLead3 (code a) then
        match r1 with
        | String b (String c r3) =>
            if isWhiteSpace3 (code a) (code b) (code c) then Some r3 else None
        | _ => None
        end
      else None
  end.

(** [s] without the white space it starts with. *)
Fixpoint trimStart (s : string) : string :=
  match s with
  | EmptyString => EmptyString
  | String a r1 =>
      if isAsciiWhiteSpace a then trimStart r1
      else if (code a =? 0xC2)%N then
        match r1 with
        | String b r2 => if (code b =? 0xA0)%N then trimStart r2 else s
        | EmptyString => s
        end
      else if isLead3 (code a) then
        match r1 with
        | String b (String c r3) =>
            if isWhiteSpace3 (code a) (code b) (code c) then trimStart r3 else s
        | _ => s
        end
      else s
  end.

(** [s] without the white space it ends with: going from the end, whenever
    what is left from some byte on is one white space code point, it is
    dropped. *)
Fixpoint trimEnd (s : string) : string :=
  match s with
  | EmptyString => EmptyString
  | String c r =>
      let t := String c (trimEnd r) in
      if isWhiteSpace t then EmptyString else t
  end.

(** [s.trim()] *)
Definition trim (s : string) : string := trimEnd (trimStart s).

(** A string is falsy exactly when it is empty: [!s]. *)
Definition isEmpty (s : string) : bool :=
  match s with EmptyString => true | _ => false end.

(** A string of white space only. *)
Inductive blank : string -> Prop :=
| blank_empty : blank EmptyString
| blank_more w r : In w whiteSpaces -> blank r -> blank (w ++ r).

Definition isDigit (c : ascii) : bool :=
  let n := nat_of_ascii c in (48 <=? n)%nat && (n <=? 57)%nat.

Definition digitValue (c : ascii) : Z := Z.of_nat (nat_of_ascii c) - 48.

(** The longest prefix of decimal digits of [s], read as an integer with the
    digits already seen in [acc]; [seen] tells whether there was any digit. *)
Fixpoint parseDigits (s : string) (seen : bool) (acc : Z) : option Z :=
  match s with
  | String c r =>
      if isDigit c then parseDigits r true (10 * acc + digitValue c)
      else if seen then Some acc else None
  | EmptyString => if seen then Some acc else None
  end.

(** The number for the digits read, with its sign. *)
Definition numberOfDigits (negative : bool) (digits : option Z) : number :=
  match digits with
  | Some m => roundToDouble (if negative then - m else m)
  | None => NaN
  end.

(** [parseInt(s, 10)]: leading white space is skipped, one sign is read, then
    the longest run of digits; the value is the binary64 value nearest to the
    integer read, and NaN when no digit was found. *)
Definition parseInt (s : string) : number :=
  match trimStart s with
  | String "-" r => numberOfDigits true (parseDigits r false 0)
  | String "+" r => numberOfDigits false (parseDigits r false 0)
  | r => numberOfDigits false (parseDigits r false 0)
  end.

Definition digitChar (d : Z) : ascii := ascii_of_nat (48 + Z.to_nat d).

(** The decimal digits of [n >= 0], most significant first, in front of [acc].
    The recursion is on [fuel]; [toString] gives it enough. *)
Fixpoint digitsOf (fuel : nat) (n : Z) (acc : string) : string :=
  let acc' := String (digitChar (n mod 10)) acc in
  match fuel with
  | O => acc'
  | S fuel' => if n <? 10 then acc' else digitsOf fuel' (n / 10) acc'
  end.

(** [n.toString()] for an integer [n] of magnitude below 2^53: all its
    digits.  The text of any other number is given by [numberToString]
    below. *)
Definition toString (n : Z) : string :=
  if n <? 0
  then String "-" (digitsOf (Z.to_nat (Z.log2 (- n))) (- n) EmptyString)
  else digitsOf (Z.to_nat (Z.log2 n)) n EmptyString.

Fixpoint repeatChar (c : ascii) (n : nat) : string :=
  match n with
  | O => EmptyString
  | S n' => String c (repeatChar c n')
  end.

(** [s.padStart(targetLength, c)] for a one-character fill string [c]: the
    string is never shortened. *)
Definition padStart (targetLength : nat) (c : ascii) (s : string) : string :=
  repeatChar c (targetLength - String.length s) ++ s.

(** 10^n as a rational. *)
Definition pow10 (n : Z) : Q :=
  if 0 <=? n then inject_Z (10 ^ n) else Qmake 1 (Z.to_pos (10 ^ (- n))).

(** The [n] with 10^(n-1) <= q < 10^n, for [q > 0]. *)
Definition decimalExponent (q : Q) : Z :=
  let e2 := Z.log2 (Qnum q) - Z.log2 (Zpos (Qden q)) in
  let n0 := e2 * 30103 / 100000 in
  match find (fun n => Qle_bool (pow10 (n - 1)) q && negb (Qle_bool (pow10 n) q))
             [n0 - 1; n0; n0 + 1; n0 + 2] with
  | Some n => n
  | None => n0
  end.

(** Whether the decimal [s * 10^(n-k)] is read back as the binary64 value [q]. *)
Definition readsBack (q : Q) (s n k : Z) : bool :=
  ratio_eqb (roundQ (inject_Z s * pow10 (n - k))) (Ratio q).

(** The decimal of [k] digits that stands for [q], if there is one: the
    digits [s] and the exponent [n], the value being [s * 10^(n-k)].  Of two
    such decimals the nearer to [q] is taken, and the even one when they are
    as near. *)
Definition decimalOfLength (q : Q) (n k : Z) : option (Z * Z) :=
  let scaled := (q / pow10 (n - k))%Q in
  let lo := Qfloor scaled in
  let hi := lo + 1 in
  let okLo := readsBack q lo n k in
  let okHi := readsBack q hi n k in
  let carry (s : Z) := if s =? 10 ^ k then (10 ^ (k - 1), n + 1) else (s, n) in
  if okLo && okHi then
    match (scaled - inject_Z lo ?= inject_Z hi - scaled)%Q with
    | Lt => Some (lo, n)
    | Gt => Some (carry hi)
    | Eq => if Z.even lo then Some (lo, n) else Some (carry hi)
    end
  else if okLo then Some (lo, n)
  else if okHi then Some (carry hi)
  else None.

(** The shortest decimal that stands for [q]: lengths [k], [k+1], ... are
    tried in turn. *)
Fixpoint shortestDecimal (fuel : nat) (q : Q) (n k : Z) : Z * Z * Z :=
  match decimalOfLength q n k, fuel with
  | Some (s, n'), _ => (s, n', k)
  | None, S fuel' => shortestDecimal fuel' q n (k + 1)
  | None, O => (Qfloor (q / pow10 (n - k)), n, k)
  end.

(** [s.substring(0, n)] and [s.substring(n)] *)
Fixpoint firstChars (n : nat) (s : string) : string :=
  match n, s with
  | S n', String c r => String c (firstChars n' r)
  | _, _ => EmptyString
  end.

Fixpoint afterChars (n : nat) (s : string) : string :=
  match n, s with
  | S n', String _ r => afterChars n' r
  | _, _ => s
  end.

(** The text of the decimal with digits [s], [k] of them, and exponent [n]. *)
Definition decimalText (s n k : Z) : string :=
  let digits := toString s in
  if (k <=? n) && (n <=? 21) then digits ++ repeatChar "0" (Z.to_nat (n - k))
  else if (0 <? n) && (n <=? 21)
  then firstChars (Z.to_nat n) digits ++ "." ++ afterChars (Z.to_nat n) digits
  else if (-6 <? n) && (n <=? 0)
  then "0." ++ repeatChar "0" (Z.to_nat (- n)) ++ digits
  else
    let e := n - 1 in
    let exponent := (if e <? 0 then "e-" else "e+") ++ toString (Z.abs e) in
    if k =? 1 then digits ++ exponent
    else firstChars 1 digits ++ "." ++ afterChars 1 digits ++ exponent.

(** [q] is an integer of magnitude below 2^53. *)
Definition isSafeInteger (q : Q) : bool :=
  (Zpos (Qden (Qred q)) =? 1) && (Z.abs (Qnum (Qred q)) <? 2 ^ 53).

(** The text of a positive binary64 value. *)
Definition positiveToString (q : Q) : string :=
  let n := decimalExponent (Qred q) in
  let '(s, n', k) := shortestDecimal 17 (Qred q) n 1 in
  decimalText s n' k.

(** [x.toString()] for a binary64 value: the decimal with the fewest digits
    that is read back as [x].  For an integer below 2^53 in magnitude these
    are all its digits. *)
Definition numberToString (x : ratio) : string :=
  match x with
  | RatioNaN => "NaN"
  | RatioPosInf => "Infinity"
  | RatioNegInf => "-Infinity"
  | Ratio q =>
      if isSafeInteger q then toString (Qnum (Qred q))
      else if (Qnum q <? 0) then String "-" (positiveToString (Qopp q))
      else positiveToString q
  end.

(** [Math.floor(x)] *)
Definition floor (x : ratio) : number :=
  match x with
  | Ratio q => Fin (Qfloor q)
  | RatioPosInf => PosInf
  | RatioNegInf => NegInf
  | RatioNaN => NaN
  end.

(** [a % b]: the remainder has the sign of [a] and is exact. *)
Definition rem (a b : number) : number :=
  match a, b with
  | Fin x, Fin y => if y =? 0 then NaN else Fin (Z.rem x y)
  | Fin x, PosInf | Fin x, NegInf => Fin x
  | _, _ => NaN
  end.

End JS.
(** ** The timer *)

Module Timer.

Import JS.

(** [type TimerTypeKey = "POMODORO" | "SHORT_BREAK" | "LONG_BREAK"] *)
Inductive TimerTypeKey : Type := POMODORO | SHORT_BREAK | LONG_BREAK.

Definition TimerTypeKey_eqb (a b : TimerTypeKey) : bool :=
  match a, b with
  | POMODORO, POMODORO | SHORT_BREAK, SHORT_BREAK | LONG_BREAK, LONG_BREAK => true
  | _, _ => false
  end.

(** [Record<TimerTypeKey, A>]: an object with exactly the three keys. *)
Record PerType (A : Type) : Type := mkPerType {
  ofPomodoro : A;
  ofShortBreak : A;
  ofLongBreak : A
}.
Arguments mkPerType {A} _ _ _.
Arguments ofPomodoro {A} _.
Arguments ofShortBreak {A} _.
Arguments ofLongBreak {A} _.

(** [r[k]] *)
Definition get {A : Type} (k : TimerTypeKey) (r : PerType A) : A :=
  match k with
  | POMODORO => ofPomodoro r
  | SHORT_BREAK => ofShortBreak r
  | LONG_BREAK => ofLongBreak r
  end.

(** [{ ...r, [k]: v }] *)
Definition set {A : Type} (k : TimerTypeKey) (v : A) (r : PerType A) : PerType A :=
  match k with
  | POMODORO => mkPerType v (ofShortBreak r) (ofLongBreak r)
  | SHORT_BREAK => mkPerType (ofPomodoro r) v (ofLongBreak r)
  | LONG_BREAK => mkPerType (ofPomodoro r) (ofShortBreak r) v
  end.

(** The keys in the order [for ... in] enumerates them. *)
Definition keys : list TimerTypeKey := [POMODORO; SHORT_BREAK; LONG_BREAK].

(** Durations in seconds. *)
Definition INITIAL_TIMER_TYPES : PerType number :=
  mkPerType (Fin (25 * 60)) (Fin (5 * 60)) (Fin (15 * 60)).

(** The [useState] cells of [PomodoroScreen] that the timer uses. *)
Record State : Type := mkState {
  timerType : TimerTypeKey;
  timerDurations : PerType number;
  timeLeft : number;
  isActive : bool;
  pomodoroCount : Z;
  isMuted : bool;
  settingsVisible : bool;
  tempTimerDurations : PerType string
}.

Definition setTimerType (v : TimerTypeKey) (s : State) : State :=
  mkState v (timerDurations s) (timeLeft s) (isActive s) (pomodoroCount s)
          (isMuted s) (settingsVisible s) (tempTimerDurations s).
Definition setTimerDurations (v : PerType number) (s : State) : State :=
  mkState (timerType s) v (timeLeft s) (isActive s) (pomodoroCount s)
          (isMuted s) (settingsVisible s) (tempTimerDurations s).
Definition setTimeLeft (v : number) (s : State) : State :=
  mkState (timerType s) (timerDurations s) v (isActive s) (pomodoroCount s)
          (isMuted s) (settingsVisible s) (tempTimerDurations s).
Definition setIsActive (v : bool) (s : State) : State :=
  mkState (timerType s) (timerDurations s) (timeLeft s) v (pomodoroCount s)
          (isMuted s) (settingsVisible s) (tempTimerDurations s).
Definition setPomodoroCount (v : Z) (s : State) : State :=
  mkState (timerType s) (timerDurations s) (timeLeft s) (isActive s) v
          (isMuted s) (settingsVisible s) (tempTimerDurations s).
Definition setIsMuted (v : bool) (s : State) : State :=
  mkState (timerType s) (timerDurations s) (timeLeft s) (isActive s)
          (pomodoroCount s) v (settingsVisible s) (tempTimerDurations s).
Definition setSettingsVisible (v : bool) (s : State) : State :=
  mkState (timerType s) (timerDurations s) (timeLeft s) (isActive s)
          (pomodoroCount s) (isMuted s) v (tempTimerDurations s).
Definition setTempTimerDurations (v : PerType string) (s : State) : State :=
  mkState (timerType s) (timerDurations s) (timeLeft s) (isActive s)
          (pomodoroCount s) (isMuted s) (settingsVisible s) v.

(** The text the settings dialog shows for a duration:
    [(seconds / 60).toString()]. *)
Definition minutesText (seconds : number) : string :=
  numberToString (div seconds 60).

(** The initial values of the [useState] cells. *)
Definition initial : State := {|
  timerType := POMODORO;
  timerDurations := INITIAL_TIMER_TYPES;
  timeLeft := ofPomodoro INITIAL_TIMER_TYPES;
  isActive := false;
  pomodoroCount := 0;
  isMuted := false;
  settingsVisible := false;
  tempTimerDurations :=
    mkPerType (minutesText (ofPomodoro INITIAL_TIMER_TYPES))
              (minutesText (ofShortBreak INITIAL_TIMER_TYPES))
              (minutesText (ofLongBreak INITIAL_TIMER_TYPES))
|}.

(** *** The timer effect

    [useEffect(..., [isActive, timeLeft, ...])] has three outcomes: it sets up
    a one-second interval, it ends the running phase, or it does nothing. *)
Inductive EffectOutcome : Type :=
| IntervalSet
| PhaseEnded (vibrated : bool)
| NothingToDo.

(** The [else if (isActive && timeLeft === 0)] branch: the setters all read
    the values of the render the effect belongs to. *)
Definition phaseCompletion (s : State) : State :=
  let s1 :=
    match timerType s with
    | POMODORO =>
        let newCount := pomodoroCount s + 1 in
        let s' := setPomodoroCount newCount s in
        if Z.rem newCount 4 =? 0
        then setTimeLeft (ofLongBreak (timerDurations s)) (setTimerType LONG_BREAK s')
        else setTimeLeft (ofShortBreak (timerDurations s)) (setTimerType SHORT_BREAK s')
    | _ =>
        setTimeLeft (ofPomodoro (timerDurations s)) (setTimerType POMODORO s)
    end in
  setIsActive false s1.

Definition timerEffect (s : State) : State * EffectOutcome :=
  if isActive s && ltb 0 (timeLeft s) then (s, IntervalSet)
  else if isActive s && eqb (timeLeft s) 0
       then (phaseCompletion s, PhaseEnded (negb (isMuted s)))
       else (s, NothingToDo).

(** The interval's callback, [setTimeLeft(timeLeft - 1)].  The interval exists
    only while the effect's first branch holds; it is cleared otherwise. *)
Definition intervalCallback (s : State) : State :=
  if isActive s && ltb 0 (timeLeft s) then setTimeLeft (sub (timeLeft s) 1) s else s.

(** *** The event handlers *)

Definition toggleTimer (s : State) : State := setIsActive (negb (isActive s)) s.

Definition resetTimer (s : State) : State :=
  setTimeLeft (get (timerType s) (timerDurations s)) (setIsActive false s).

Definition switchTimerType (type : TimerTypeKey) (s : State) : State :=
  setTimeLeft (get type (timerDurations s))
              (setTimerType type (setIsActive false s)).

Definition handleDurationChange (type : TimerTypeKey) (durationInSeconds : number)
                                (s : State) : State :=
  let s' := setTimerDurations (set type durationInSeconds (timerDurations s)) s in
  if TimerTypeKey_eqb (timerType s) type && negb (isActive s)
  then setTimeLeft durationInSeconds s'
  else s'.

Definition handleTempDurationChange (type : TimerTypeKey) (text : string)
                                    (s : State) : State :=
  setTempTimerDurations (set type text (tempTimerDurations s)) s.

(** One turn of the loop of [handleSaveSettings] over the keys of the draft. *)
Definition commitDuration (temp : PerType string) (acc : PerType number)
                          (type : TimerTypeKey) : PerType number :=
  let parsedMinutes := parseInt (get type temp) in
  if negb (isNaN parsedMinutes) && leb 0 parsedMinutes
  then set type (mul parsedMinutes 60) acc
  else set type (get type INITIAL_TIMER_TYPES) acc.

Definition newDurationsInSeconds (temp : PerType string) : PerType number :=
  fold_left (commitDuration temp) keys INITIAL_TIMER_TYPES.

Definition handleSaveSettings (s : State) : State :=
  let new := newDurationsInSeconds (tempTimerDurations s) in
  let s1 := setTimerDurations new s in
  let s2 := if negb (isActive s) then setTimeLeft (get (timerType s) new) s1 else s1 in
  setSettingsVisible false s2.

Definition handleCancelSettings (s : State) : State := setSettingsVisible false s.

(** The gear button, followed by the effect that fills the draft when the
    dialog has just opened. *)
Definition openSettings (s : State) : State :=
  let s' := setSettingsVisible true s in
  if negb (settingsVisible s)
  then setTempTimerDurations
         (mkPerType (minutesText (ofPomodoro (timerDurations s)))
                    (minutesText (ofShortBreak (timerDurations s)))
                    (minutesText (ofLongBreak (timerDurations s)))) s'
  else s'.

Definition toggleMute (s : State) : State := setIsMuted (negb (isMuted s)) s.

(** *** Display *)

(** [formatTime] on a whole number of seconds from 0 to below 2^53.  There
    [Math.floor(seconds / 60)] is the integer quotient, [seconds % 60] the
    remainder, and [toString] writes all the digits of both; [clockText]
    below is the text for every number. *)
Definition formatTime (seconds : Z) : string :=
  let minutes := seconds / 60 in
  let remainingSeconds := Z.rem seconds 60 in
  padStart 2 "0" (toString minutes) ++ ":" ++
  padStart 2 "0" (toString remainingSeconds).

(** The text of the clock on the screen, [formatTime(timeLeft)], for every
    number the clock can hold. *)
Definition clockText (s : State) : string :=
  let minutes := floor (div (timeLeft s) 60) in
  let remainingSeconds := rem (timeLeft s) 60 in
  padStart 2 "0" (numberToString (ratioOfNumber minutes)) ++ ":" ++
  padStart 2 "0" (numberToString (ratioOfNumber remainingSeconds)).

Definition getProgress (s : State) : ratio :=
  let totalTime := get (timerType s) (timerDurations s) in
  if eqb totalTime 0 then Ratio 0
  else div (sub totalTime (timeLeft s)) totalTime.

(** *** The screen as a transition system *)

Inductive Event : Type :=
| PressStartPause
| PressReset
| PressType (type : TimerTypeKey)
| DurationChange (type : TimerTypeKey) (durationInSeconds : number)
| EditDuration (type : TimerTypeKey) (text : string)
| PressSave
| PressCancel
| PressSettings
| PressMute
| IntervalFires.

Definition handle (e : Event) (s : State) : State :=
  match e with
  | PressStartPause => toggleTimer s
  | PressReset => resetTimer s
  | PressType type => switchTimerType type s
  | DurationChange type d => handleDurationChange type d s
  | EditDuration type text => handleTempDurationChange type text s
  | PressSave => handleSaveSettings s
  | PressCancel => handleCancelSettings s
  | PressSettings => openSettings s
  | PressMute => toggleMute s
  | IntervalFires => intervalCallback s
  end.

(** After a handler has changed the state the component renders again and the
    timer effect runs on the new state. *)
Definition step (e : Event) (s : State) : State := fst (timerEffect (handle e s)).

Inductive reachable : State -> Prop :=
| reachable_initial : reachable initial
| reachable_step e s : reachable s -> reachable (step e s).

(** [timeLeft] does not exceed the duration configured for the current type:
    [timeLeft > duration] is false.  For numbers other than NaN this is
    [timeLeft <= duration]. *)
Definition withinDuration (s : State) : Prop :=
  ltb (get (timerType s) (timerDurations s)) (timeLeft s) = false.

(** The events that commit a duration while the timer is running. *)
Definition commitsWhileRunning (e : Event) (s : State) : bool :=
  match e with
  | PressSave | DurationChange _ _ => isActive s
  | _ => false
  end.

(** [n] seconds of a running timer: the interval fires and the effect runs on
    the new state, [n] times.  The second component counts the runs of the
    effect that ended a phase. *)
Fixpoint countdown (n : nat) (s : State) : State * nat :=
  match n with
  | O => (s, O)
  | S n' =>
      let '(s1, ended) := countdown n' s in
      match timerEffect (intervalCallback s1) with
      | (s2, PhaseEnded _) => (s2, S ended)
      | (s2, _) => (s2, ended)
      end
  end.

End Timer.

(** ** The task list *)

Module Tasks.

(** A row of the table [tasks] as [migrateDbIfNeeded] creates it;
    [completed] is stored as the integer 0 or 1. *)
Record Row : Type := mkRow {
  row_id : Z;
  row_name : string;
  row_completed : Z;
  row_priority : Z;
  row_pomodoroSessions : Z;
  row_createdAt : string
}.

(** [interface Task] *)
Record Task : Type := mkTask {
  id : Z;
  name : string;
  completed : bool;
  priority : Z;
  pomodoroSessions : Z;
  createdAt : string
}.

(** [{ ...task, completed: !!task.completed }] *)
Definition toTask (r : Row) : Task :=
  mkTask (row_id r) (row_name r) (negb (row_completed r =? 0)) (row_priority r)
         (row_pomodoroSessions r) (row_createdAt r).

(** The table and the counter SQLite keeps for [AUTOINCREMENT]: the largest
    id it has ever given out. *)
Record Database : Type := mkDatabase {
  rows : list Row;
  sequence : Z
}.

(** What the engine does to one call: it may fail instead of executing the
    statement, and it supplies [CURRENT_TIMESTAMP]. *)
Record Engine : Type := mkEngine {
  insertFails : bool;
  selectFails : bool;
  currentTimestamp : string
}.

(** A settled promise. *)
Inductive Settled (A : Type) : Type :=
| Resolved (value : A)
| Rejected.
Arguments Resolved {A} _.
Arguments Rejected {A}.

(** An [AUTOINCREMENT] key is one more than the largest id in the table and
    the largest id ever given out. *)
Definition nextId (db : Database) : Z :=
  fold_right Z.max (sequence db) (map row_id (rows db)) + 1.

(** [db.runAsync("INSERT INTO tasks (name, priority) VALUES (?, ?)", name, priority)];
    the other columns take the defaults of the schema.  The value is the new
    table and [lastInsertRowId]. *)
Definition runInsert (env : Engine) (db : Database) (name : string) (priority : Z)
  : Settled (Database * Z) :=
  if insertFails env then Rejected
  else
    let newId := nextId db in
    let r := mkRow newId name 0 priority 0 (currentTimestamp env) in
    Resolved (mkDatabase (rows db ++ [r]) newId, newId).

(** [db.getFirstAsync("SELECT * FROM tasks WHERE id = ?", id)]; [None] is
    [null]. *)
Definition getFirstById (env : Engine) (db : Database) (i : Z) : Settled (option Row) :=
  if selectFails env then Rejected
  else Resolved (find (fun r => row_id r =? i) (rows db)).

(** The store and the [tasks] cell of the screen. *)
Record View : Type := mkView {
  database : Database;
  tasks : list Task
}.

(** [addTask(name, priority = 1)]; [None] is an omitted argument.  The
    [catch] branch only logs. *)
Definition addTask (env : Engine) (name : string) (priorityArg : option Z)
                   (v : View) : View :=
  let priority := match priorityArg with Some p => p | None => 1 end in
  if JS.isEmpty (JS.trim name) then v
  else
    match runInsert env (database v) (JS.trim name) priority with
    | Rejected => v
    | Resolved (db', newTaskId) =>
        match getFirstById env db' newTaskId with
        | Resolved (Some newTask) => mkView db' (tasks v ++ [toTask newTask])
        | Resolved None => mkView db' (tasks v)
        | Rejected => mkView db' (tasks v)
        end
    end.

(** The engine executes both statements of the call. *)
Definition succeeds (env : Engine) : Prop :=
  insertFails env = false /\ selectFails env = false.

(** The list shows no task above one of higher priority. *)
Fixpoint byPriorityDesc (l : list Task) : bool :=
  match l with
  | [] => true
  | t :: rest => forallb (fun u => priority u <=? priority t) rest && byPriorityDesc rest
  end.

End Tasks.

(** An engine that executes every statement, and a view with one task of
    priority 1. *)
Definition workingEngine : Tasks.Engine :=
  Tasks.mkEngine false false "2025-01-01 09:00:00".

Definition oneTask : Tasks.View :=
  Tasks.mkView
    (Tasks.mkDatabase [Tasks.mkRow 1 "Read mail" 0 1 0 "2025-01-01 08:00:00"] 1)
    [Tasks.mkTask 1 "Read mail" false 1 0 "2025-01-01 08:00:00"].

(** ** Runs of the screen *)

Module Runs.

Import JS Timer.

(** The state after a sequence of events, the timer effect running after
    each. *)
Definition run (es : list Event) (s : State) : State :=
  fold_left (fun s e => step e s) es s.

(** [handleDurationChange] has no caller in the screen; every other event is
    raised by a control or by the interval. *)
Definition raisedByScreen (e : Event) : bool :=
  match e with
  | DurationChange _ _ => false
  | _ => true
  end.

(** A whole number of minutes, in seconds, that is at most 2^53: up to there
    the minutes, the seconds and the text of the minutes are exact. *)
Definition exactMinutes (d : number) : Prop :=
  exists m, 0 <= m /\ m * 60 <= 2 ^ 53 /\ d = Fin (m * 60).

(** What every state of the screen between two events satisfies. *)
Record settled (s : State) : Prop := mkSettled {
  settled_durations : forall type, leb 0 (get type (timerDurations s)) = true;
  settled_clock : leb 0 (timeLeft s) = true;
  settled_running : isActive s = true -> ltb 0 (timeLeft s) = true;
  settled_empty :
    eqb (timeLeft s) 0 = true -> eqb (get (timerType s) (timerDurations s)) 0 = true;
  settled_count : 0 <= pomodoroCount s;
  settled_numbers :
    isNumber (timeLeft s) /\ forall type, isNumber (get type (timerDurations s))
}.

(** What a handler raised by the screen leaves for the effect. *)
Record handled (s : State) : Prop := mkHandled {
  handled_durations : forall type, leb 0 (get type (timerDurations s)) = true;
  handled_clock : leb 0 (timeLeft s) = true;
  handled_empty :
    eqb (timeLeft s) 0 = true ->
    isActive s = true \/ eqb (get (timerType s) (timerDurations s)) 0 = true;
  handled_count : 0 <= pomodoroCount s;
  handled_numbers :
    isNumber (timeLeft s) /\ forall type, isNumber (get type (timerDurations s))
}.

(** The edits typed into the settings dialog, as [(type, text)]. *)
Definition typeEdits (edits : list (TimerTypeKey * string)) (s : State) : State :=
  fold_left (fun s e => handleTempDurationChange (fst e) (snd e) s) edits s.


End Runs.

(** ** The database file *)

Module Store.

Import Tasks.

(** The file [pomodoroTasks.db]: the version marker, the journal mode and the
    table [tasks] when it exists. *)
Record File : Type := mkFile {
  user_version : Z;
  journalWal : bool;
  tasksTable : option Database
}.

Definition DATABASE_VERSION : Z := 1.

(** [CREATE TABLE IF NOT EXISTS tasks (...)], after
    [PRAGMA journal_mode = 'wal']. *)
Definition createTasksTable (f : File) : File :=
  mkFile (user_version f) true
         (match tasksTable f with
          | Some t => Some t
          | None => Some (mkDatabase [] 0)
          end).

(** [migrateDbIfNeeded]; [PRAGMA user_version] always yields a row. *)
Definition migrateDbIfNeeded (f : File) : File :=
  let result := Some (user_version f) in
  let currentDbVersion := match result with Some v => v | None => 0 end in
  if DATABASE_VERSION <=? currentDbVersion then f
  else
    let f1 := if currentDbVersion =? 0 then createTasksTable f else f in
    mkFile DATABASE_VERSION (journalWal f1) (tasksTable f1).

(** [ORDER BY priority DESC, createdAt ASC]: [a] may come before [b].  Text is
    compared byte by byte. *)
Definition before (a b : Row) : bool :=
  (row_priority b <? row_priority a)
  || ((row_priority a =? row_priority b)
      && (row_createdAt a <=? row_createdAt b)%string).

Fixpoint insertRow (r : Row) (l : list Row) : list Row :=
  match l with
  | [] => [r]
  | x :: l' => if before r x then r :: x :: l' else x :: insertRow r l'
  end.

(** The rows in the order of the query.  The query does not fix the order of
    rows equal in both columns; here they keep the order of the table. *)
Definition orderRows (l : list Row) : list Row := fold_right insertRow [] l.

(** [db.getAllAsync("SELECT * FROM tasks ORDER BY priority DESC, createdAt ASC")] *)
Definition getAllOrdered (env : Engine) (db : Database) : Settled (list Row) :=
  if selectFails env then Rejected else Resolved (orderRows (rows db)).

(** [fetchTasks]; the effect [loadTasks] that runs when the screen mounts
    issues the same query and sets the same state.  The [catch] branch only
    logs. *)
Definition fetchTasks (env : Engine) (v : View) : View :=
  match getAllOrdered env (database v) with
  | Resolved result => mkView (database v) (map toTask result)
  | Rejected => v
  end.

(** The order of the query, on the records of the list. *)
Definition taskOrder (a b : Task) : Prop :=
  priority b < priority a
  \/ (priority a = priority b /\ (createdAt a <=? createdAt b)%string = true).

(** Every key is used once, and every record of the list is a row of the
    table. *)
Record keysDistinct (v : View) : Prop := mkKeysDistinct {
  rowKeys : NoDup (map row_id (rows (database v)));
  listKeys : NoDup (map id (tasks v));
  listFromTable : incl (map id (tasks v)) (map row_id (rows (database v)))
}.

End Store.

(** * Properties of the numbers *)

Import JS.

(** The rounding of this file and the arithmetic of the machine agree on the
    differences, products and quotients of the sample integers and of their
    opposites. *)
Lemma rounding_agrees_with_machine :
  forallb (fun x => forallb (agreesWithMachine x)
                            (sampleIntegers ++ map Z.opp sampleIntegers))
          (sampleIntegers ++ map Z.opp sampleIntegers) = true.
Proof. vm_compute. reflexivity. Qed.

Lemma roundHalfEven_bounds (a d : Z) :
  0 <= a -> 0 < d -> a / d <= roundHalfEven a d <= a / d + 1.
Proof.
  intros Ha Hd. unfold roundHalfEven.
  destruct (2 * (a mod d) <? d); [lia|].
  destruct (d <? 2 * (a mod d)); [lia|].
  destruct (Z.even (a / d)); lia.
Qed.

Lemma roundHalfEven_exact (q d : Z) :
  0 < d -> roundHalfEven (q * d) d = q.
Proof.
  intros Hd. unfold roundHalfEven.
  rewrite Z.mod_mul, Z.div_mul by lia.
  destruct (Z.ltb_spec (2 * 0) d); [reflexivity | lia].
Qed.

Lemma roundHalfEven_mono (a b d : Z) :
  0 <= a -> a <= b -> 0 < d -> roundHalfEven a d <= roundHalfEven b d.
Proof.
  intros Ha Hab Hd.
  pose proof (roundHalfEven_bounds a d Ha Hd) as Ba.
  pose proof (roundHalfEven_bounds b d ltac:(lia) Hd) as Bb.
  pose proof (Z.div_le_mono a b d Hd Hab) as Hq.
  destruct (Z.eq_dec (a / d) (b / d)) as [E|E]; [|lia].
  pose proof (Z.div_mod a d ltac:(lia)) as Da.
  pose proof (Z.div_mod b d ltac:(lia)) as Db.
  assert (Hr : a mod d <= b mod d) by (rewrite E in Da; lia).
  unfold roundHalfEven. rewrite E.
  destruct (Z.ltb_spec (2 * (a mod d)) d), (Z.ltb_spec (2 * (b mod d)) d);
    destruct (Z.ltb_spec d (2 * (a mod d))), (Z.ltb_spec d (2 * (b mod d)));
    destruct (Z.even (b / d)); lia.
Qed.

(** From 2^53 on, a magnitude and the value nearest to it lie between the
    same two powers of two. *)
Lemma binade (a : Z) :
  2 ^ 53 <= a ->
  let e := Z.log2 a - 52 in
  1 <= e
  /\ 2 ^ 52 * 2 ^ e <= a < 2 ^ 53 * 2 ^ e
  /\ 2 ^ 52 <= a / 2 ^ e < 2 ^ 53
  /\ 2 ^ 52 * 2 ^ e <= roundMagnitude a <= 2 ^ 53 * 2 ^ e.
Proof.
  intros Ha e.
  assert (H53 : 53 <= Z.log2 a).
  { rewrite <- (Z.log2_pow2 53) by lia. apply Z.log2_le_mono, Ha. }
  assert (He : 1 <= e) by (subst e; lia).
  assert (Hpos : 0 < 2 ^ e) by (apply Z.pow_pos_nonneg; lia).
  assert (Hspec : 2 ^ 52 * 2 ^ e <= a < 2 ^ 53 * 2 ^ e).
  { pose proof (Z.log2_spec a ltac:(lia)) as Hs.
    replace (Z.log2 a) with (52 + e) in Hs at 1 by (subst e; lia).
    replace (Z.succ (Z.log2 a)) with (53 + e) in Hs by (subst e; lia).
    rewrite !Z.pow_add_r in Hs by lia. exact Hs. }
  assert (Hq : 2 ^ 52 <= a / 2 ^ e < 2 ^ 53).
  { split.
    - apply Z.div_le_lower_bound; lia.
    - apply Z.div_lt_upper_bound; lia. }
  repeat split; try lia.
  - unfold roundMagnitude. destruct (Z.ltb_spec a (2 ^ 53)); [lia|]. fold e.
    pose proof (roundHalfEven_bounds a (2 ^ e) ltac:(lia) Hpos). nia.
  - unfold roundMagnitude. destruct (Z.ltb_spec a (2 ^ 53)); [lia|]. fold e.
    pose proof (roundHalfEven_bounds a (2 ^ e) ltac:(lia) Hpos). nia.
Qed.

Lemma roundMagnitude_small (a : Z) : a < 2 ^ 53 -> roundMagnitude a = a.
Proof.
  intros Ha. unfold roundMagnitude.
  destruct (Z.ltb_spec a (2 ^ 53)); [reflexivity | lia].
Qed.

Lemma roundMagnitude_nonneg (a : Z) : 0 <= a -> 0 <= roundMagnitude a.
Proof.
  intros Ha. destruct (Z_lt_ge_dec a (2 ^ 53)).
  - rewrite roundMagnitude_small; assumption.
  - pose proof (binade a ltac:(lia)) as (He & _ & _ & H & _).
    assert (0 < 2 ^ (Z.log2 a - 52)) by (apply Z.pow_pos_nonneg; lia). nia.
Qed.

(** Rounding keeps the order. *)
Lemma roundMagnitude_mono (x y : Z) :
  0 <= x -> x <= y -> roundMagnitude x <= roundMagnitude y.
Proof.
  intros Hx Hxy.
  destruct (Z_lt_ge_dec x (2 ^ 53)) as [Sx|Bx].
  - rewrite (roundMagnitude_small x Sx).
    destruct (Z_lt_ge_dec y (2 ^ 53)) as [Sy|By].
    + rewrite roundMagnitude_small; assumption.
    + pose proof (binade y ltac:(lia)) as (He & _ & _ & H & _).
      assert (2 ^ 1 <= 2 ^ (Z.log2 y - 52)) by (apply Z.pow_le_mono_r; lia).
      change (2 ^ 1) with 2 in *. nia.
  - pose proof (binade x ltac:(lia)) as (Hex & _ & _ & _ & Ux).
    pose proof (binade y ltac:(lia)) as (Hey & _ & _ & Ly & _).
    pose proof (Z.log2_le_mono x y Hxy) as Hlog.
    destruct (Z.eq_dec (Z.log2 x) (Z.log2 y)) as [E|E].
    + unfold roundMagnitude.
      destruct (Z.ltb_spec x (2 ^ 53)); [lia|].
      destruct (Z.ltb_spec y (2 ^ 53)); [lia|].
      rewrite E.
      assert (0 < 2 ^ (Z.log2 y - 52)) by (apply Z.pow_pos_nonneg; lia).
      apply Z.mul_le_mono_nonneg_r; [lia|].
      apply roundHalfEven_mono; lia.
    + assert (Hp : 2 * 2 ^ (Z.log2 x - 52) <= 2 ^ (Z.log2 y - 52)).
      { rewrite <- Z.pow_succ_r by lia. apply Z.pow_le_mono_r; lia. }
      change (2 ^ 53) with (2 ^ 52 * 2) in Ux. nia.
Qed.

Lemma roundMagnitude_idempotent (a : Z) :
  0 <= a -> roundMagnitude (roundMagnitude a) = roundMagnitude a.
Proof.
  intros Ha. destruct (Z_lt_ge_dec a (2 ^ 53)) as [S|B].
  - rewrite !roundMagnitude_small; try reflexivity; try assumption.
    rewrite roundMagnitude_small; assumption.
  - pose proof (binade a ltac:(lia)) as (He & _ & Hq & _ & _).
    set (e := Z.log2 a - 52) in *.
    assert (Hpos : 0 < 2 ^ e) by (apply Z.pow_pos_nonneg; lia).
    pose proof (roundHalfEven_bounds a (2 ^ e) ltac:(lia) Hpos) as Hb.
    assert (Hm : roundMagnitude a = roundHalfEven a (2 ^ e) * 2 ^ e).
    { unfold roundMagnitude. destruct (Z.ltb_spec a (2 ^ 53)); [lia|]. reflexivity. }
    set (q := roundHalfEven a (2 ^ e)) in *.
    assert (H2 : 2 ^ 1 <= 2 ^ e) by (apply Z.pow_le_mono_r; lia).
    change (2 ^ 1) with 2 in H2.
    rewrite Hm. unfold roundMagnitude.
    destruct (Z.ltb_spec (q * 2 ^ e) (2 ^ 53)) as [|_]; [nia|].
    destruct (Z.eq_dec q (2 ^ 53)) as [Eq|Nq].
    + assert (Hl : Z.log2 (q * 2 ^ e) = 53 + e).
      { rewrite Eq, <- Z.pow_add_r by lia. apply Z.log2_pow2. lia. }
      rewrite Hl. replace (53 + e - 52) with (e + 1) by lia.
      rewrite Eq. change (2 ^ 53) with (2 ^ 52 * 2).
      rewrite Z.pow_add_r by lia. change (2 ^ 1) with 2.
      replace (2 ^ 52 * 2 * 2 ^ e) with (2 ^ 52 * (2 ^ e * 2)) by lia.
      rewrite roundHalfEven_exact by lia. reflexivity.
    + assert (Hl : Z.log2 (q * 2 ^ e) = 52 + e).
      { apply Z.log2_unique; [lia|].
        replace (Z.succ (52 + e)) with (53 + e) by lia.
        rewrite !Z.pow_add_r by lia. nia. }
      rewrite Hl. replace (52 + e - 52) with e by lia.
      rewrite roundHalfEven_exact by lia. reflexivity.
Qed.

(** Every integer up to 2^53 in magnitude is a binary64 value. *)
Lemma roundToDouble_exact (z : Z) : Z.abs z <= 2 ^ 53 -> roundToDouble z = Fin z.
Proof.
  intros Hz. unfold roundToDouble.
  assert (Hm : roundMagnitude (Z.abs z) = Z.abs z).
  { destruct (Z.eq_dec (Z.abs z) (2 ^ 53)) as [->|]; [reflexivity|].
    apply roundMagnitude_small. lia. }
  rewrite Hm.
  destruct (Z.leb_spec (2 ^ 1024) (Z.abs z)) as [H|_].
  - assert (2 ^ 53 < 2 ^ 1024) by reflexivity. lia.
  - f_equal. lia.
Qed.

(** What rounding returns is a binary64 value. *)
Lemma roundToDouble_isNumber (z : Z) : isNumber (roundToDouble z).
Proof.
  unfold roundToDouble.
  pose proof (roundMagnitude_nonneg (Z.abs z) (Z.abs_nonneg z)) as Hn.
  pose proof (roundMagnitude_idempotent (Z.abs z) (Z.abs_nonneg z)) as Hi.
  set (m := roundMagnitude (Z.abs z)) in *.
  destruct (Z.leb_spec (2 ^ 1024) m) as [|Hlt]; [destruct (z <? 0); exact I|].
  cbn [isNumber]. unfold isDouble, roundToDouble.
  assert (Ha : Z.abs (Z.sgn z * m) = m \/ m = 0).
  { destruct (Z.eq_dec m 0); [right; assumption|]. left.
    assert (z <> 0).
    { intros ->. subst m. cbn in *. contradiction. }
    lia. }
  destruct Ha as [Ha|H0].
  - rewrite Ha, Hi.
    destruct (Z.leb_spec (2 ^ 1024) m); [lia|].
    f_equal. destruct (Z.eq_dec m 0); [lia|].
    assert (0 < m) by lia.
    destruct z; cbn [Z.sgn] in *; lia.
  - rewrite H0, Z.mul_0_r. reflexivity.
Qed.

Lemma isNumber_sub (a b : number) : isNumber (sub a b).
Proof.
  destruct a, b; cbn; try exact I. apply roundToDouble_isNumber.
Qed.

Lemma isNumber_mul (a b : number) : isNumber (mul a b).
Proof.
  destruct a as [x| | |], b as [y| | |]; cbn [mul];
    try exact I; try (destruct (sign _ * sign _); exact I).
  apply roundToDouble_isNumber.
Qed.

(** The order of the numbers. *)
Lemma leb_Fin (x y : Z) : leb (Fin x) (Fin y) = (x <=? y).
Proof.
  unfold leb, ltb, eqb.
  destruct (Z.ltb_spec x y), (Z.eqb_spec x y), (Z.leb_spec x y); try reflexivity; lia.
Qed.

Lemma leb_refl (a : number) : a <> NaN -> leb a a = true.
Proof.
  destruct a; intros H; try reflexivity; [|contradiction].
  rewrite leb_Fin. apply Z.leb_refl.
Qed.

Lemma leb_trans (a b c : number) : leb a b = true -> leb b c = true -> leb a c = true.
Proof.
  destruct a, b, c; try reflexivity; try discriminate.
  rewrite !leb_Fin. rewrite !Z.leb_le. lia.
Qed.

Lemma ltb_leb (a b : number) : ltb a b = true -> leb a b = true.
Proof. intros H. unfold leb. rewrite H. reflexivity. Qed.

Lemma eqb_eq (a b : number) : eqb a b = true <-> a = b /\ a <> NaN.
Proof.
  destruct a, b; cbn; split; try discriminate; try (intros [H _]; discriminate H);
    try (intros [_ H]; contradiction); try (split; [reflexivity | discriminate]);
    try reflexivity.
  - intros H. apply Z.eqb_eq in H. subst. split; [reflexivity | discriminate].
  - intros [H _]. injection H as ->. apply Z.eqb_refl.
Qed.

(** Rounding an integer keeps it on its side of a binary64 value. *)
Lemma roundToDouble_le (x d : Z) :
  0 <= x -> x <= d -> isDouble d -> leb (roundToDouble x) (Fin d) = true.
Proof.
  intros Hx Hxd Hd. unfold isDouble, roundToDouble in *.
  rewrite (Z.abs_eq d) in Hd by lia. rewrite (Z.abs_eq x) by lia.
  pose proof (roundMagnitude_mono x d Hx Hxd) as Hm.
  pose proof (roundMagnitude_nonneg x Hx) as Hn.
  destruct (Z.leb_spec (2 ^ 1024) (roundMagnitude d)); [destruct (d <? 0); discriminate|].
  injection Hd as Hd.
  destruct (Z.leb_spec (2 ^ 1024) (roundMagnitude x)); [lia|].
  rewrite leb_Fin. apply Z.leb_le.
  destruct (Z.eq_dec x 0) as [->|]; [cbn; lia|].
  assert (Z.sgn x = 1) by lia. assert (Z.sgn d = 1) by lia. nia.
Qed.

Lemma roundToDouble_nonneg (x : Z) : 0 <= x -> leb 0 (roundToDouble x) = true.
Proof.
  intros Hx. unfold roundToDouble. rewrite (Z.abs_eq x) by lia.
  pose proof (roundMagnitude_nonneg x Hx) as Hn.
  destruct (Z.leb_spec (2 ^ 1024) (roundMagnitude x)).
  - destruct (Z.ltb_spec x 0); [lia | reflexivity].
  - rewrite leb_Fin. apply Z.leb_le.
    destruct (Z.eq_dec x 0) as [->|]; [cbn; lia|].
    assert (Z.sgn x = 1) by lia. nia.
Qed.

(** * Properties of the strings *)

Lemma string_app_assoc (a b c : string) : (a ++ b) ++ c = a ++ (b ++ c).
Proof. induction a as [|x a IH]; simpl; [reflexivity | now rewrite IH]. Qed.

Lemma string_app_length (a b : string) :
  String.length (a ++ b) = (String.length a + String.length b)%nat.
Proof. induction a as [|x a IH]; simpl; [reflexivity | now rewrite IH]. Qed.

Lemma string_app_empty (s : string) : s ++ "" = s.
Proof. induction s as [|c s IH]; simpl; [reflexivity | now rewrite IH]. Qed.

Lemma string_app_cancel (a x y : string) : a ++ x = a ++ y -> x = y.
Proof.
  induction a as [|c a IH]; simpl; intros H; [exact H|].
  injection H as H. apply IH, H.
Qed.

Lemma code_inj (a : ascii) (n : N) : code a = n -> a = ascii_of_N n.
Proof. intros <-. unfold code. symmetry. apply ascii_N_embedding. Qed.

Ltac in_whiteSpaces :=
  unfold whiteSpaces; cbn [map bytes]; repeat (first [left; reflexivity | right]).

(** Every white space is a string of one to three bytes. *)
Lemma whiteSpaces_length (w : string) :
  In w whiteSpaces -> (1 <= String.length w <= 3)%nat.
Proof.
  unfold whiteSpaces. cbn [map bytes In].
  intros H. repeat (destruct H as [<-|H]; [cbn; lia|]). contradiction.
Qed.

(** [afterWhiteSpace] recognises exactly the members of [whiteSpaces]. *)
Lemma afterWhiteSpace_complete (w r : string) :
  In w whiteSpaces -> afterWhiteSpace (w ++ r) = Some r.
Proof.
  unfold whiteSpaces. cbn [map bytes In].
  intros H. repeat (destruct H as [<-|H]; [reflexivity|]). contradiction.
Qed.

Lemma afterWhiteSpace_sound (s r : string) :
  afterWhiteSpace s = Some r -> exists w, In w whiteSpaces /\ s = w ++ r.
Proof.
  destruct s as [|a r1]; cbn [afterWhiteSpace]; [discriminate|].
  destruct (isAsciiWhiteSpace a) eqn:Ea.
  { intros H. injection H as <-. unfold isAsciiWhiteSpace in Ea.
    apply orb_prop in Ea as [Ea|Ea].
    - apply andb_prop in Ea as [E1 E2]. apply N.leb_le in E1, E2.
      assert (Hc : (code a = 0x09 \/ code a = 0x0A \/ code a = 0x0B
                    \/ code a = 0x0C \/ code a = 0x0D)%N) by lia.
      destruct Hc as [Hc|[Hc|[Hc|[Hc|Hc]]]]; apply code_inj in Hc; subst a;
        (match goal with
         | |- exists w, _ /\ String ?c _ = _ =>
             exists (String c ""); split; [in_whiteSpaces | reflexivity]
         end).
    - apply N.eqb_eq, code_inj in Ea. subst a.
      match goal with
      | |- exists w, _ /\ String ?c _ = _ =>
          exists (String c ""); split; [in_whiteSpaces | reflexivity]
      end. }
  destruct (N.eqb_spec (code a) 0xC2) as [Ha|_].
  { destruct r1 as [|b r2]; [discriminate|].
    destruct (N.eqb_spec (code b) 0xA0) as [Hb|_]; [|discriminate].
    intros H. injection H as <-. apply code_inj in Ha, Hb. subst a b.
    match goal with
    | |- exists w, _ /\ String ?c (String ?d _) = _ =>
        exists (String c (String d "")); split; [in_whiteSpaces | reflexivity]
    end. }
  destruct (isLead3 (code a)); [|discriminate].
  destruct r1 as [|b [|c r3]]; try discriminate.
  destruct (isWhiteSpace3 (code a) (code b) (code c)) eqn:E3; [|discriminate].
  intros H. injection H as <-. unfold isWhiteSpace3 in E3.
  repeat rewrite ?orb_true_iff, ?andb_true_iff, ?N.eqb_eq, ?N.leb_le in E3.
  assert (Hcases :
            exists x y z, code a = x /\ code b = y /\ code c = z
                          /\ In (bytes [x; y; z]) whiteSpaces).
  { assert (Hknown : forall x y z : N,
                code a = x -> code b = y -> code c = z ->
                In (bytes [x; y; z]) whiteSpaces ->
                exists x y z, code a = x /\ code b = y /\ code c = z
                              /\ In (bytes [x; y; z]) whiteSpaces).
    { intros x y z Hx Hy Hz Hin. exists x, y, z. auto. }
    destruct E3 as [[[[E|E]|E]|E]|E]; destruct E as [[Ha Hb] Hc].
    - apply (Hknown _ _ _ Ha Hb Hc). in_whiteSpaces.
    - assert (Hz : (code c = 0x80 \/ code c = 0x81 \/ code c = 0x82 \/ code c = 0x83
                    \/ code c = 0x84 \/ code c = 0x85 \/ code c = 0x86
                    \/ code c = 0x87 \/ code c = 0x88 \/ code c = 0x89
                    \/ code c = 0x8A \/ code c = 0xA8 \/ code c = 0xA9
                    \/ code c = 0xAF)%N) by lia.
      repeat (destruct Hz as [Hz|Hz];
              [apply (Hknown _ _ _ Ha Hb Hz); in_whiteSpaces|]).
      apply (Hknown _ _ _ Ha Hb Hz). in_whiteSpaces.
    - apply (Hknown _ _ _ Ha Hb Hc). in_whiteSpaces.
    - apply (Hknown _ _ _ Ha Hb Hc). in_whiteSpaces.
    - apply (Hknown _ _ _ Ha Hb Hc). in_whiteSpaces. }
  destruct Hcases as (x & y & z & Ha & Hb & Hc & Hin).
  apply code_inj in Ha, Hb, Hc. subst a b c.
  exists (bytes [x; y; z]). split; [exact Hin | reflexivity].
Qed.

Lemma afterWhiteSpace_none (s : string) :
  afterWhiteSpace s = None <-> forall w r, In w whiteSpaces -> s <> w ++ r.
Proof.
  split.
  - intros Hn w r Hw ->. rewrite afterWhiteSpace_complete in Hn by exact Hw.
    discriminate.
  - intros H. destruct (afterWhiteSpace s) as [r|] eqn:E; [|reflexivity].
    destruct (afterWhiteSpace_sound s r E) as (w & Hw & Hs).
    exfalso. apply (H w r Hw Hs).
Qed.

Lemma trimStart_unfold (s : string) :
  trimStart s = match afterWhiteSpace s with
                | Some r => trimStart r
                | None => s
                end.
Proof.
  destruct s as [|a r1]; [reflexivity|]. cbn [trimStart afterWhiteSpace].
  destruct (isAsciiWhiteSpace a); [reflexivity|].
  destruct (code a =? 0xC2)%N.
  { destruct r1 as [|b r2]; [reflexivity|].
    destruct (code b =? 0xA0)%N; reflexivity. }
  destruct (isLead3 (code a)); [|reflexivity].
  destruct r1 as [|b [|c r3]]; try reflexivity.
  destruct (isWhiteSpace3 (code a) (code b) (code c)); reflexivity.
Qed.

Lemma trimStart_whiteSpace (w r : string) :
  In w whiteSpaces -> trimStart (w ++ r) = trimStart r.
Proof.
  intros Hw. rewrite trimStart_unfold, afterWhiteSpace_complete by exact Hw.
  reflexivity.
Qed.

(** Induction on the length of a string. *)
Lemma string_length_ind (P : string -> Prop) :
  (forall s, (forall t, (String.length t < String.length s)%nat -> P t) -> P s) ->
  forall s, P s.
Proof.
  intros H s.
  assert (Hn : forall n t, (String.length t < n)%nat -> P t).
  { induction n as [|n IH]; intros t Ht; [lia|].
    apply H. intros u Hu. apply IH. lia. }
  apply (Hn (S (String.length s))). lia.
Qed.

Lemma blank_app (a b : string) : blank a -> blank b -> blank (a ++ b).
Proof.
  intros Ha Hb. induction Ha as [|w r Hw Hr IH]; [exact Hb|].
  rewrite string_app_assoc. constructor; assumption.
Qed.

(** [trimStart] takes a blank prefix away and leaves a string that does not
    start with white space. *)
Lemma trimStart_spec (s : string) :
  (exists pre, blank pre /\ s = pre ++ trimStart s)
  /\ afterWhiteSpace (trimStart s) = None.
Proof.
  induction s as [s IH] using string_length_ind.
  rewrite trimStart_unfold. destruct (afterWhiteSpace s) as [r|] eqn:E.
  - destruct (afterWhiteSpace_sound s r E) as (w & Hw & ->).
    assert (Hlen : (String.length r < String.length (w ++ r))%nat).
    { rewrite string_app_length. pose proof (whiteSpaces_length w Hw). lia. }
    destruct (IH r Hlen) as [(pre & Hpre & Hr) Hnone].
    split; [|exact Hnone].
    exists (w ++ pre). split; [constructor; assumption|].
    rewrite string_app_assoc, <- Hr. reflexivity.
  - split; [|exact E]. exists "". split; [constructor | reflexivity].
Qed.

Lemma trimStart_blank (s : string) : blank s -> trimStart s = "".
Proof.
  intros H. induction H as [|w r Hw Hr IH]; [reflexivity|].
  rewrite trimStart_whiteSpace by exact Hw. exact IH.
Qed.

Lemma isWhiteSpace_In (t : string) : isWhiteSpace t = true <-> In t whiteSpaces.
Proof.
  unfold isWhiteSpace. rewrite existsb_exists. split.
  - intros (w & Hw & E). apply String.eqb_eq in E. subst. exact Hw.
  - intros H. exists t. split; [exact H | apply String.eqb_refl].
Qed.

(** [trimEnd] takes a blank suffix away. *)
Lemma trimEnd_prefix (s : string) :
  exists tail, blank tail /\ s = trimEnd s ++ tail.
Proof.
  induction s as [|c r (tail & Htail & Hr)]; cbn [trimEnd].
  - exists "". split; [constructor | reflexivity].
  - destruct (isWhiteSpace (String c (trimEnd r))) eqn:E.
    + apply isWhiteSpace_In in E.
      exists (String c (trimEnd r) ++ tail). split; [constructor; assumption|].
      cbn [append]. rewrite <- Hr. reflexivity.
    + exists tail. split; [exact Htail|]. cbn [append]. rewrite <- Hr. reflexivity.
Qed.

(** What [trimEnd] leaves does not end with white space. *)
Lemma trimEnd_no_suffix (s : string) :
  forall t w, In w whiteSpaces -> trimEnd s <> t ++ w.
Proof.
  induction s as [|c r IH]; intros t w Hw; cbn [trimEnd].
  - pose proof (whiteSpaces_length w Hw) as Hl. intros H.
    apply (f_equal String.length) in H. rewrite string_app_length in H. cbn in H. lia.
  - destruct (isWhiteSpace (String c (trimEnd r))) eqn:E.
    + pose proof (whiteSpaces_length w Hw) as Hl. intros H.
      apply (f_equal String.length) in H. rewrite string_app_length in H. cbn in H. lia.
    + intros H. destruct t as [|x t]; cbn [append] in H.
      * rewrite H in E. apply isWhiteSpace_In in Hw. congruence.
      * injection H as _ H. apply (IH t w Hw H).
Qed.

Lemma trimEnd_idempotent (s : string) : trimEnd (trimEnd s) = trimEnd s.
Proof.
  induction s as [|c r IH]; [reflexivity|]. cbn [trimEnd].
  destruct (isWhiteSpace (String c (trimEnd r))) eqn:E; [reflexivity|].
  cbn [trimEnd]. rewrite IH, E. reflexivity.
Qed.

Lemma trimEnd_empty (s : string) : trimEnd s = "" -> blank s.
Proof.
  intros H. destruct (trimEnd_prefix s) as (tail & Htail & Hs).
  rewrite H in Hs. cbn in Hs. subst. exact Htail.
Qed.

(** The names [trim] empties are the blank ones. *)
Lemma trim_empty (s : string) : trim s = "" <-> blank s.
Proof.
  unfold trim. split.
  - intros H. destruct (trimStart_spec s) as [(pre & Hpre & Hs) _].
    rewrite Hs. apply blank_app; [exact Hpre | apply trimEnd_empty, H].
  - intros H. rewrite trimStart_blank by exact H. reflexivity.
Qed.

(** The trimmed string neither starts nor ends with white space, and
    trimming it again changes nothing. *)
Lemma trim_clean (s : string) :
  trim (trim s) = trim s
  /\ (forall w r, In w whiteSpaces -> trim s <> w ++ r)
  /\ (forall t w, In w whiteSpaces -> trim s <> t ++ w).
Proof.
  assert (Hstart : forall w r, In w whiteSpaces -> trim s <> w ++ r).
  { unfold trim. intros w r Hw H.
    destruct (trimStart_spec s) as [_ Hnone].
    destruct (trimEnd_prefix (trimStart s)) as (tail & _ & Ht).
    rewrite H, string_app_assoc in Ht.
    apply (proj1 (afterWhiteSpace_none _) Hnone w _ Hw Ht). }
  split; [|split; [exact Hstart | intros t w; apply trimEnd_no_suffix]].
  unfold trim at 1.
  rewrite trimStart_unfold.
  rewrite (proj2 (afterWhiteSpace_none (trim s)) Hstart).
  apply trimEnd_idempotent.
Qed.

(** *** Decimal digits *)

Lemma digit_cases (d : Z) :
  0 <= d < 10 ->
  d = 0 \/ d = 1 \/ d = 2 \/ d = 3 \/ d = 4 \/ d = 5 \/ d = 6 \/ d = 7 \/ d = 8 \/ d = 9.
Proof. lia. Qed.

Ltac each_digit H :=
  apply digit_cases in H;
  repeat (destruct H as [H|H]; [subst; try reflexivity|]); subst; try reflexivity.

Lemma isDigit_digitChar (d : Z) : 0 <= d < 10 -> isDigit (digitChar d) = true.
Proof. intros H. each_digit H. Qed.

Lemma digitValue_digitChar (d : Z) : 0 <= d < 10 -> digitValue (digitChar d) = d.
Proof. intros H. each_digit H. Qed.

(** A digit is not white space and not a sign: [parseInt] starts reading the
    number at it. *)
Lemma parseInt_at_digit (d : Z) (r : string) :
  0 <= d < 10 ->
  parseInt (String (digitChar d) r)
  = numberOfDigits false (parseDigits (String (digitChar d) r) false 0).
Proof. intros H. each_digit H. Qed.

(** The accumulator is only ever appended to. *)
Lemma digitsOf_acc (fuel : nat) :
  forall n acc, digitsOf fuel n acc = digitsOf fuel n "" ++ acc.
Proof.
  induction fuel as [|fuel IH]; intros n acc; cbn [digitsOf].
  - reflexivity.
  - destruct (n <? 10); [reflexivity|].
    rewrite IH, (IH _ (String _ "")), string_app_assoc. reflexivity.
Qed.

(** Fuel [f] is enough for every [n < 10 * 2 ^ f]; more fuel changes nothing. *)
Lemma digitsOf_fuel (f1 : nat) :
  forall f2 n acc,
    0 <= n < 10 * 2 ^ Z.of_nat f1 ->
    n < 10 * 2 ^ Z.of_nat f2 ->
    digitsOf f1 n acc = digitsOf f2 n acc.
Proof.
  induction f1 as [|f1 IH]; intros f2 n acc H1 H2.
  - change (2 ^ Z.of_nat 0) with 1 in H1.
    destruct f2; cbn [digitsOf]; [reflexivity|].
    destruct (Z.ltb_spec n 10); [reflexivity | lia].
  - destruct f2 as [|f2]; cbn [digitsOf].
    + change (2 ^ Z.of_nat 0) with 1 in H2.
      destruct (Z.ltb_spec n 10); [reflexivity | lia].
    + destruct (Z.ltb_spec n 10) as [|Hge]; [reflexivity|].
      rewrite Nat2Z.inj_succ, Z.pow_succ_r in H1, H2 by lia.
      assert (0 < 2 ^ Z.of_nat f1) by (apply Z.pow_pos_nonneg; lia).
      assert (0 < 2 ^ Z.of_nat f2) by (apply Z.pow_pos_nonneg; lia).
      apply IH.
      * split; [apply Z.div_pos; lia|].
        apply Z.div_lt_upper_bound; lia.
      * apply Z.div_lt_upper_bound; lia.
Qed.

Lemma log2_fuel (n : Z) : 0 <= n -> n < 10 * 2 ^ Z.of_nat (Z.to_nat (Z.log2 n)).
Proof.
  intros Hn. rewrite Z2Nat.id by apply Z.log2_nonneg.
  destruct (Z.eq_dec n 0) as [->|Hnz]; [reflexivity|].
  pose proof (Z.log2_spec n ltac:(lia)) as Hlog.
  rewrite Z.pow_succ_r in Hlog by apply Z.log2_nonneg. lia.
Qed.

Lemma toString_nonneg (n : Z) :
  0 <= n -> toString n = digitsOf (Z.to_nat (Z.log2 n)) n "".
Proof.
  intros Hn. unfold toString. destruct (Z.ltb_spec n 0); [lia | reflexivity].
Qed.

Lemma toString_digit (n : Z) :
  0 <= n < 10 -> toString n = String (digitChar n) "".
Proof.
  intros Hn. rewrite toString_nonneg by lia.
  rewrite (digitsOf_fuel _ 0%nat);
    [| split; [lia | apply log2_fuel; lia] | simpl; lia].
  cbn [digitsOf]. rewrite Z.mod_small by lia. reflexivity.
Qed.

Lemma toString_step (n : Z) :
  10 <= n -> toString n = toString (n / 10) ++ String (digitChar (n mod 10)) "".
Proof.
  intros Hn.
  assert (Hq : 0 <= n / 10) by (apply Z.div_pos; lia).
  rewrite !toString_nonneg by lia.
  pose proof (log2_fuel n ltac:(lia)) as Hf.
  destruct (Z.to_nat (Z.log2 n)) as [|f] eqn:Ef.
  - apply (f_equal Z.of_nat) in Ef.
    rewrite Z2Nat.id in Ef by apply Z.log2_nonneg.
    pose proof (Z.log2_le_mono 10 n ltac:(lia)) as Hlog.
    change (Z.log2 10) with 3 in Hlog. simpl in Ef. lia.
  - cbn [digitsOf]. destruct (Z.ltb_spec n 10); [lia|].
    rewrite digitsOf_acc. f_equal.
    rewrite Nat2Z.inj_succ, Z.pow_succ_r in Hf by lia.
    assert (0 < 2 ^ Z.of_nat f) by (apply Z.pow_pos_nonneg; lia).
    apply digitsOf_fuel.
    + split; [exact Hq|]. apply Z.div_lt_upper_bound; lia.
    + apply log2_fuel. exact Hq.
Qed.

(** Induction on the decimal digits of a number. *)
Lemma decimal_ind (P : Z -> Prop) :
  (forall n, 0 <= n < 10 -> P n) ->
  (forall n, 10 <= n -> P (n / 10) -> P n) ->
  forall n, 0 <= n -> P n.
Proof.
  intros Hdigit Hstep. apply Zlt_0_ind. intros n IH Hn.
  destruct (Z_lt_ge_dec n 10) as [Hlt|Hge].
  - apply Hdigit. lia.
  - apply Hstep; [lia|]. apply IH. split.
    + apply Z.div_pos; lia.
    + apply Z.div_lt; lia.
Qed.

Ltac decimal_induction n Hn IH :=
  intros Hn; pattern n; apply decimal_ind;
  [clear n Hn; intros n Hn | clear n Hn; intros n Hn IH | exact Hn].

Lemma toString_length_pos (n : Z) : 0 <= n -> (1 <= String.length (toString n))%nat.
Proof.
  decimal_induction n Hn IH.
  - rewrite toString_digit by lia. simpl. lia.
  - rewrite toString_step, string_app_length by lia. simpl. lia.
Qed.

Lemma toString_length_2 (n : Z) :
  10 <= n < 100 -> String.length (toString n) = 2%nat.
Proof.
  intros Hn. rewrite toString_step, string_app_length by lia.
  rewrite toString_digit; [reflexivity|].
  split; [apply Z.div_pos; lia | apply Z.div_lt_upper_bound; lia].
Qed.

Lemma toString_length_3 (n : Z) :
  100 <= n -> (3 <= String.length (toString n))%nat.
Proof.
  intros Hn. rewrite toString_step, string_app_length by lia.
  assert (10 <= n / 10) by (apply Z.div_le_lower_bound; lia).
  rewrite toString_step, string_app_length by lia.
  pose proof (toString_length_pos (n / 10 / 10)
                ltac:(apply Z.div_pos; lia)).
  simpl. lia.
Qed.

(** Reading back what [toString] wrote. *)
Lemma parseDigits_toString (n : Z) :
  0 <= n ->
  forall rest seen,
    parseDigits (toString n ++ rest) seen 0 = parseDigits rest true n.
Proof.
  decimal_induction n Hn IH.
  - intros rest seen. rewrite toString_digit by lia. cbn [append parseDigits].
    rewrite isDigit_digitChar, digitValue_digitChar by lia. reflexivity.
  - intros rest seen.
    rewrite toString_step, string_app_assoc, IH by lia.
    cbn [append parseDigits].
    assert (Hd : 0 <= n mod 10 < 10) by (apply Z.mod_pos_bound; lia).
    rewrite isDigit_digitChar, digitValue_digitChar by exact Hd.
    f_equal. pose proof (Z.div_mod n 10). lia.
Qed.

Lemma toString_head (n : Z) :
  0 <= n -> exists d r, 0 <= d < 10 /\ toString n = String (digitChar d) r.
Proof.
  decimal_induction n Hn IH.
  - exists n, "". split; [lia | apply toString_digit; lia].
  - destruct IH as (d & r & Hd & Hr). rewrite toString_step, Hr by lia.
    exists d, (r ++ String (digitChar (n mod 10)) ""). split; [exact Hd | reflexivity].
Qed.

(** [parseInt] reads the decimal text of an integer back as the binary64
    value nearest to it. *)
Lemma parseInt_toString (n : Z) : parseInt (toString n) = roundToDouble n.
Proof.
  destruct (Z_lt_ge_dec n 0) as [Hneg|Hpos].
  - unfold toString. destruct (Z.ltb_spec n 0); [|lia].
    rewrite <- toString_nonneg by lia.
    unfold parseInt. change (trimStart (String "-" (toString (- n))))
      with (String "-" (toString (- n))). cbv iota.
    rewrite <- (string_app_empty (toString (- n))).
    rewrite parseDigits_toString by lia. cbn [parseDigits numberOfDigits].
    f_equal. lia.
  - destruct (toString_head n ltac:(lia)) as (d & r & Hd & Hr).
    rewrite Hr, parseInt_at_digit, <- Hr by exact Hd.
    rewrite <- (string_app_empty (toString n)).
    rewrite parseDigits_toString by lia. reflexivity.
Qed.

(** * Properties of the timer *)

Import Timer.

Lemma rem4_mod4 (n : Z) : Z.rem n 4 = 0 <-> n mod 4 = 0.
Proof.
  rewrite Z.rem_divide by lia. rewrite Z.mod_divide by lia. reflexivity.
Qed.

Lemma TimerTypeKey_eqb_eq (a b : TimerTypeKey) :
  TimerTypeKey_eqb a b = true <-> a = b.
Proof. destruct a, b; simpl; split; congruence. Qed.

Lemma get_set_same {A : Type} (k : TimerTypeKey) (v : A) (r : PerType A) :
  get k (set k v r) = v.
Proof. destruct k; reflexivity. Qed.

Lemma get_set_other {A : Type} (k k' : TimerTypeKey) (v : A) (r : PerType A) :
  k <> k' -> get k (set k' v r) = get k r.
Proof. destruct k, k'; simpl; congruence. Qed.

(** Whatever state a phase ends in, the new one starts with a full clock. *)
Lemma phaseCompletion_full (s : State) :
  timeLeft (phaseCompletion s)
  = get (timerType (phaseCompletion s)) (timerDurations (phaseCompletion s))
  /\ isActive (phaseCompletion s) = false
  /\ timerDurations (phaseCompletion s) = timerDurations s.
Proof.
  unfold phaseCompletion.
  destruct (timerType s); simpl; auto.
  destruct (Z.rem (pomodoroCount s + 1) 4 =? 0); simpl; auto.
Qed.

(** C1. When a phase completes (the timer is active and [timeLeft] is 0) the
    effect takes its completion branch.  After a POMODORO the count is one
    more, and the next type is LONG_BREAK when the new count is a multiple of
    4 and SHORT_BREAK otherwise; after a break the count is unchanged and the
    next type is POMODORO.  In every case the clock is set to the duration of
    the next type and the timer is stopped. *)
Theorem phase_completion_policy (s : State) :
  isActive s = true ->
  timeLeft s = 0 ->
  let s' := fst (timerEffect s) in
  s' = phaseCompletion s
  /\ (timerType s = POMODORO ->
        pomodoroCount s' = pomodoroCount s + 1
        /\ ((pomodoroCount s + 1) mod 4 = 0 -> timerType s' = LONG_BREAK)
        /\ ((pomodoroCount s + 1) mod 4 <> 0 -> timerType s' = SHORT_BREAK))
  /\ (timerType s <> POMODORO ->
        pomodoroCount s' = pomodoroCount s /\ timerType s' = POMODORO)
  /\ timerDurations s' = timerDurations s
  /\ timeLeft s' = get (timerType s') (timerDurations s)
  /\ isActive s' = false.
Proof.
  intros Hact Hzero s'.
  assert (Hs' : s' = phaseCompletion s).
  { subst s'. unfold timerEffect. rewrite Hact, Hzero. reflexivity. }
  destruct (phaseCompletion_full s) as (Hfull & Hstop & Hdur).
  rewrite Hs'. repeat split; auto.
  - unfold phaseCompletion. rewrite H.
    destruct (Z.rem (pomodoroCount s + 1) 4 =? 0); reflexivity.
  - intros Hmod. apply rem4_mod4 in Hmod.
    unfold phaseCompletion. rewrite H, Hmod. reflexivity.
  - intros Hmod. unfold phaseCompletion. rewrite H.
    destruct (Z.rem (pomodoroCount s + 1) 4 =? 0) eqn:E; [|reflexivity].
    apply Z.eqb_eq, rem4_mod4 in E. contradiction.
  - unfold phaseCompletion. destruct (timerType s); [contradiction | reflexivity ..].
  - unfold phaseCompletion. destruct (timerType s); [contradiction | reflexivity ..].
  - rewrite Hfull, Hdur. reflexivity.
Qed.

(** The fourth pomodoro in a row ends: a long break follows. *)
Lemma phase_completion_policy_witness :
  let s := mkState POMODORO INITIAL_TIMER_TYPES 0 true 3 false false
                   (tempTimerDurations initial) in
  let s' := fst (timerEffect s) in
  s' = phaseCompletion s
  /\ (timerType s = POMODORO ->
        pomodoroCount s' = pomodoroCount s + 1
        /\ ((pomodoroCount s + 1) mod 4 = 0 -> timerType s' = LONG_BREAK)
        /\ ((pomodoroCount s + 1) mod 4 <> 0 -> timerType s' = SHORT_BREAK))
  /\ (timerType s <> POMODORO ->
        pomodoroCount s' = pomodoroCount s /\ timerType s' = POMODORO)
  /\ timerDurations s' = timerDurations s
  /\ timeLeft s' = get (timerType s') (timerDurations s)
  /\ isActive s' = false.
Proof.
  exact (phase_completion_policy
           (mkState POMODORO INITIAL_TIMER_TYPES 0 true 3 false false
                    (tempTimerDurations initial))
           eq_refl eq_refl).
Defined.

(** C4. From any state, [switchTimerType target] stops the timer, selects
    [target], fills the clock with the duration of [target], and leaves the
    count of completed pomodoros and the durations as they were; the effect
    that runs afterwards finds nothing to do. *)
Theorem switchTimerType_resets (s : State) (target : TimerTypeKey) :
  let s' := switchTimerType target s in
  isActive s' = false
  /\ timerType s' = target
  /\ timeLeft s' = get target (timerDurations s')
  /\ timerDurations s' = timerDurations s
  /\ pomodoroCount s' = pomodoroCount s
  /\ step (PressType target) s = s'.
Proof.
  simpl. repeat split.
Qed.

(** The start/pause button is one handler: it flips [isActive]. *)
Lemma toggleTimer_pauses_running_timer :
  let s := toggleTimer initial in
  isActive s = true
  /\ isActive (toggleTimer s) = false
  /\ toggleTimer s <> s.
Proof.
  simpl. repeat split. discriminate.
Qed.

(** C5, as the code has it.  The button calls [toggleTimer], which negates
    [isActive] and changes nothing else: it starts a stopped timer and it
    stops a running one. *)
Theorem toggleTimer_flips_isActive (s : State) :
  let s' := toggleTimer s in
  isActive s' = negb (isActive s)
  /\ timerType s' = timerType s
  /\ timerDurations s' = timerDurations s
  /\ timeLeft s' = timeLeft s
  /\ pomodoroCount s' = pomodoroCount s
  /\ isMuted s' = isMuted s
  /\ settingsVisible s' = settingsVisible s
  /\ tempTimerDurations s' = tempTimerDurations s.
Proof.
  simpl. repeat split.
Qed.


(** *** Counting down *)

Lemma setTimeLeft_same (s : State) : setTimeLeft (timeLeft s) s = s.
Proof. destruct s; reflexivity. Qed.

Lemma setTimeLeft_twice (a b : number) (s : State) :
  setTimeLeft a (setTimeLeft b s) = setTimeLeft a s.
Proof. reflexivity. Qed.

Lemma timerEffect_stopped (s : State) :
  isActive s = false -> timerEffect s = (s, NothingToDo).
Proof. intros H. unfold timerEffect. rewrite H. reflexivity. Qed.

(** One second of a running clock that shows [t], for [0 < t <= 2^53]. *)
Lemma intervalCallback_exact (s : State) (t : Z) :
  isActive s = true -> timeLeft s = Fin t -> 0 < t <= 2 ^ 53 ->
  intervalCallback s = setTimeLeft (Fin (t - 1)) s.
Proof.
  intros Hact Ht Hr. unfold intervalCallback. rewrite Hact, Ht. cbn [andb ltb sub].
  destruct (Z.ltb_spec 0 t); [|lia].
  rewrite roundToDouble_exact by lia. reflexivity.
Qed.

(** While more than [k] seconds are left, [k] seconds only move the clock. *)
Lemma countdown_before_end (s : State) (t : Z) (k : nat) :
  isActive s = true ->
  timeLeft s = Fin t ->
  t <= 2 ^ 53 ->
  Z.of_nat k < t ->
  countdown k s = (setTimeLeft (Fin (t - Z.of_nat k)) s, O).
Proof.
  intros Hact Ht Hr. induction k as [|k IH]; intros Hlt.
  - simpl. rewrite Z.sub_0_r, <- Ht, setTimeLeft_same. reflexivity.
  - cbn [countdown]. rewrite IH by lia.
    rewrite (intervalCallback_exact _ (t - Z.of_nat k)) by (auto; lia).
    rewrite setTimeLeft_twice.
    unfold timerEffect. cbn [isActive timeLeft setTimeLeft]. rewrite Hact.
    cbn [andb ltb].
    destruct (Z.ltb_spec 0 (t - Z.of_nat k - 1)); [|lia].
    do 3 f_equal. lia.
Qed.

(** The second that empties the clock ends the phase. *)
Lemma countdown_at_end (s : State) (t : Z) (k : nat) :
  isActive s = true ->
  timeLeft s = Fin t ->
  t <= 2 ^ 53 ->
  Z.of_nat (S k) = t ->
  countdown (S k) s = (phaseCompletion (setTimeLeft 0 s), 1%nat).
Proof.
  intros Hact Ht Hr Hk. cbn [countdown].
  rewrite (countdown_before_end s t k) by (auto; lia).
  rewrite (intervalCallback_exact _ (t - Z.of_nat k)) by (auto; lia).
  rewrite setTimeLeft_twice.
  replace (t - Z.of_nat k - 1) with 0 by lia.
  unfold timerEffect. cbn [isActive timeLeft setTimeLeft]. rewrite Hact.
  reflexivity.
Qed.

(** A stopped timer has no interval, and its effect does nothing. *)
Lemma countdown_stopped (s : State) (n : nat) :
  isActive s = false -> countdown n s = (s, O).
Proof.
  intros Hidle. induction n as [|n IH]; [reflexivity|].
  cbn [countdown]. rewrite IH.
  unfold intervalCallback. rewrite Hidle. cbn [andb].
  rewrite timerEffect_stopped by exact Hidle. reflexivity.
Qed.

Lemma countdown_add (n m : nat) (s : State) :
  countdown (n + m) s
  = let '(s1, c1) := countdown n s in
    let '(s2, c2) := countdown m s1 in
    (s2, (c1 + c2)%nat).
Proof.
  induction m as [|m IH].
  - rewrite Nat.add_0_r. simpl. destruct (countdown n s). f_equal. lia.
  - rewrite Nat.add_succ_r. cbn [countdown]. rewrite IH.
    destruct (countdown n s) as [s1 c1].
    destruct (countdown m s1) as [s2 c2].
    destruct (timerEffect (intervalCallback s2)) as [s3 [| |]]; f_equal; lia.
Qed.

(** A clock that one second does not move never moves. *)
Lemma countdown_stuck (s : State) (n : nat) :
  intervalCallback s = s ->
  timerEffect s = (s, IntervalSet) ->
  countdown n s = (s, O).
Proof.
  intros Hsame Heff. induction n as [|n IH]; [reflexivity|].
  cbn [countdown]. rewrite IH, Hsame, Heff. reflexivity.
Qed.

(** A pomodoro of 150119987579017 minutes, saved while the timer is stopped,
    then reset and started: the duration is 9007199254741020 seconds, one
    less is not a binary64 value and is rounded back, so the clock stays
    where it is and the phase never ends. *)
Lemma clock_stuck_above_2_53 :
  let s := step PressSave
             (step (EditDuration POMODORO "150119987579017")
                (step PressSettings initial)) in
  let s0 := toggleTimer (resetTimer s) in
  reachable s
  /\ get (timerType s) (timerDurations s) = 9007199254741020
  /\ isActive s0 = true
  /\ timeLeft s0 = 9007199254741020
  /\ timeLeft (intervalCallback s0) = 9007199254741020
  /\ (forall n : nat, countdown n s0 = (s0, O)).
Proof.
  cbv zeta. split; [repeat constructor|].
  split; [vm_compute; reflexivity|]. split; [reflexivity|].
  split; [vm_compute; reflexivity|]. split; [vm_compute; reflexivity|].
  intros n. apply countdown_stuck; vm_compute; reflexivity.
Qed.

(** C3, as the code has it.  Let [D], with [0 < D <= 2^53], be the duration
    of the current type, and let the timer be reset and then started.  During
    the first [D - 1] seconds the effect never ends the phase and the clock
    shows [D - k] after [k] of them; the [D]-th firing of the interval brings
    the clock to exactly 0; the effect that follows ends the phase, for the
    first time; and however many further seconds pass, the phase has ended
    exactly once. *)
Theorem countdown_ends_phase_once (s : State) (D : Z) :
  get (timerType s) (timerDurations s) = Fin D ->
  0 < D ->
  D <= 2 ^ 53 ->
  let s0 := toggleTimer (resetTimer s) in
  isActive s0 = true /\ timeLeft s0 = D
  /\ (forall k : nat, Z.of_nat k < D ->
        countdown k s0 = (setTimeLeft (D - Z.of_nat k) s0, O))
  /\ timeLeft (intervalCallback (fst (countdown (Z.to_nat D - 1) s0))) = 0
  /\ countdown (Z.to_nat D) s0 = (phaseCompletion (setTimeLeft 0 s0), 1%nat)
  /\ (forall n : nat, D <= Z.of_nat n ->
        countdown n s0 = (phaseCompletion (setTimeLeft 0 s0), 1%nat)).
Proof.
  intros HD Hpos Hsafe s0.
  assert (Hact : isActive s0 = true) by reflexivity.
  assert (Hleft : timeLeft s0 = Fin D) by (subst s0; cbn; exact HD).
  assert (Hend : countdown (Z.to_nat D) s0
                 = (phaseCompletion (setTimeLeft 0 s0), 1%nat)).
  { replace (Z.to_nat D) with (S (Z.to_nat D - 1)) by lia.
    apply (countdown_at_end s0 D); auto; lia. }
  split; [exact Hact|]. split; [exact Hleft|]. split; [|split; [|split]].
  - intros k Hk. apply countdown_before_end; auto.
  - rewrite (countdown_before_end s0 D) by (auto; lia). cbn [fst].
    rewrite (intervalCallback_exact _ (D - Z.of_nat (Z.to_nat D - 1)))
      by (auto; lia).
    cbn [timeLeft setTimeLeft]. f_equal. lia.
  - exact Hend.
  - intros n Hn.
    replace n with (Z.to_nat D + (n - Z.to_nat D))%nat by lia.
    rewrite countdown_add, Hend.
    rewrite countdown_stopped by apply phaseCompletion_full.
    reflexivity.
Qed.

(** A three-second pomodoro. *)
Lemma countdown_ends_phase_once_witness :
  let s := setTimerDurations (mkPerType (Fin 3) (Fin 300) (Fin 900)) initial in
  let s0 := toggleTimer (resetTimer s) in
  isActive s0 = true /\ timeLeft s0 = 3
  /\ (forall k : nat, Z.of_nat k < 3 ->
        countdown k s0 = (setTimeLeft (3 - Z.of_nat k) s0, O))
  /\ timeLeft (intervalCallback (fst (countdown (Z.to_nat 3 - 1) s0))) = 0
  /\ countdown (Z.to_nat 3) s0 = (phaseCompletion (setTimeLeft 0 s0), 1%nat)
  /\ (forall n : nat, 3 <= Z.of_nat n ->
        countdown n s0 = (phaseCompletion (setTimeLeft 0 s0), 1%nat)).
Proof.
  refine (countdown_ends_phase_once
            (setTimerDurations (mkPerType (Fin 3) (Fin 300) (Fin 900)) initial) 3
            eq_refl eq_refl _).
  intros H. discriminate H.
Defined.

(** *** The clock and the configured duration *)

Lemma ltb_irrefl (a : number) : ltb a a = false.
Proof. destruct a; cbn; try reflexivity. apply Z.ltb_irrefl. Qed.

Lemma ltb_false_leb (a b : number) :
  a <> NaN -> b <> NaN -> (ltb b a = false <-> leb a b = true).
Proof.
  intros Ha Hb. destruct a, b; try contradiction; cbn; try tauto;
    try (split; discriminate).
  rewrite leb_Fin, Z.ltb_ge, Z.leb_le. tauto.
Qed.

(** One second never takes the clock above a duration it was within. *)
Lemma sub_one_within (t d : number) :
  isNumber t -> ltb 0 t = true -> ltb d t = false -> ltb d (sub t 1) = false.
Proof.
  intros Hn Hpos Hle. destruct t as [x| | |]; try discriminate.
  - cbn in Hpos. apply Z.ltb_lt in Hpos. cbn [sub].
    assert (H1 : leb (roundToDouble (x - 1)) (Fin x) = true)
      by (apply roundToDouble_le; [lia | lia | exact Hn]).
    destruct (roundToDouble (x - 1)) as [r| | |]; try discriminate H1.
    + rewrite leb_Fin in H1. apply Z.leb_le in H1.
      destruct d as [y| | |]; try reflexivity; cbn in *.
      * apply Z.ltb_ge in Hle. apply Z.ltb_ge. lia.
      * discriminate.
    + destruct d; reflexivity.
  - destruct d; cbn in *; congruence.
Qed.

Lemma withinDuration_phaseCompletion (s : State) : withinDuration (phaseCompletion s).
Proof.
  unfold withinDuration.
  destruct (phaseCompletion_full s) as (-> & _ & _). apply ltb_irrefl.
Qed.

Lemma withinDuration_timerEffect (s : State) :
  withinDuration s -> withinDuration (fst (timerEffect s)).
Proof.
  intros Hs. unfold timerEffect.
  destruct (isActive s && ltb 0 (timeLeft s)); [exact Hs|].
  destruct (isActive s && eqb (timeLeft s) 0); [|exact Hs].
  apply withinDuration_phaseCompletion.
Qed.

Lemma withinDuration_handle (e : Event) (s : State) :
  isNumber (timeLeft s) ->
  withinDuration s ->
  commitsWhileRunning e s = false ->
  withinDuration (handle e s).
Proof.
  unfold withinDuration. intros Hn Hs Hsafe.
  destruct e; cbn [handle commitsWhileRunning] in *.
  - exact Hs.
  - cbn. apply ltb_irrefl.
  - cbn. apply ltb_irrefl.
  - unfold handleDurationChange. rewrite Hsafe. cbn [negb].
    rewrite andb_true_r.
    destruct (TimerTypeKey_eqb (timerType s) type) eqn:E.
    + apply TimerTypeKey_eqb_eq in E. subst type.
      cbn [andb timeLeft timerType timerDurations setTimeLeft setTimerDurations].
      rewrite get_set_same. apply ltb_irrefl.
    + cbn [andb timeLeft timerType timerDurations setTimeLeft setTimerDurations].
      rewrite get_set_other; [exact Hs|].
      intros Heq. rewrite Heq in E. destruct type; discriminate.
  - exact Hs.
  - unfold handleSaveSettings. rewrite Hsafe. cbn. apply ltb_irrefl.
  - exact Hs.
  - unfold openSettings. destruct (negb (settingsVisible s)); exact Hs.
  - exact Hs.
  - unfold intervalCallback.
    destruct (isActive s && ltb 0 (timeLeft s)) eqn:E; [|exact Hs].
    apply andb_prop in E as [_ Hpos].
    cbn [timeLeft timerType timerDurations setTimeLeft].
    apply sub_one_within; assumption.
Qed.

(** Saving a shorter pomodoro while the timer runs: the clock keeps the 1500
    seconds it had and the duration becomes 60. *)
Lemma save_while_running_exceeds_duration :
  let s := step (EditDuration POMODORO "1")
             (step PressSettings (step PressStartPause initial)) in
  let s' := step PressSave s in
  reachable s
  /\ isActive s = true
  /\ leb (timeLeft s) (get (timerType s) (timerDurations s)) = true
  /\ timeLeft s' = 1500
  /\ get (timerType s') (timerDurations s') = 60
  /\ leb (timeLeft s') (get (timerType s') (timerDurations s')) = false
  /\ ~ withinDuration s'.
Proof.
  cbv zeta. split; [repeat constructor|].
  split; [reflexivity|]. split; [vm_compute; reflexivity|].
  split; [vm_compute; reflexivity|]. split; [vm_compute; reflexivity|].
  split; [vm_compute; reflexivity|].
  unfold withinDuration. vm_compute. discriminate.
Qed.

(** C2, as the code has it.  In a state whose clock does not exceed the
    duration of the current type, every handler except a commit of durations
    made while the timer runs ([handleSaveSettings], [handleDurationChange])
    leaves a clock that does not exceed it: start, pause, reset, switching
    type, a firing of the interval, a commit made while the timer is stopped;
    so does the effect that runs after the handler, and so does the end of a
    phase.  A commit of durations made while the timer runs leaves the clock
    and the running timer as they are, whatever the new duration.  The clock
    is taken to be a binary64 value, as every number of the screen is. *)
Theorem withinDuration_preserved (e : Event) (s : State) :
  isNumber (timeLeft s) ->
  withinDuration s ->
  (commitsWhileRunning e s = false ->
     withinDuration (handle e s) /\ withinDuration (step e s))
  /\ withinDuration (phaseCompletion s)
  /\ (commitsWhileRunning e s = true ->
        timeLeft (handle e s) = timeLeft s
        /\ isActive (handle e s) = true
        /\ timerType (handle e s) = timerType s).
Proof.
  intros Hn Hs. split; [|split].
  - intros Hsafe.
    pose proof (withinDuration_handle e s Hn Hs Hsafe) as Hh.
    split; [exact Hh | apply withinDuration_timerEffect, Hh].
  - apply withinDuration_phaseCompletion.
  - intros Hrun. destruct e; cbn [commitsWhileRunning] in Hrun; try discriminate;
      cbn [handle].
    + unfold handleDurationChange. rewrite Hrun, andb_false_r. repeat split.
      exact Hrun.
    + unfold handleSaveSettings. rewrite Hrun. repeat split. exact Hrun.
Qed.

(** Saving the dialog while the timer is stopped, and while it runs. *)
Lemma withinDuration_preserved_witness :
  (withinDuration (handle PressSave initial)
   /\ withinDuration (step PressSave initial))
  /\ timeLeft (handle PressSave (toggleTimer initial)) = timeLeft (toggleTimer initial).
Proof.
  split.
  - refine (proj1 (withinDuration_preserved PressSave initial _ _) eq_refl);
      reflexivity.
  - refine (proj1 (proj2 (proj2
              (withinDuration_preserved PressSave (toggleTimer initial) _ _))
              eq_refl)); reflexivity.
Defined.

(** *** The progress bar *)

Lemma inject_Z_nonzero (z : Z) : z <> 0 -> ~ (inject_Z z == 0)%Q.
Proof.
  intros Hz H. apply Hz. unfold Qeq in H. simpl in H. lia.
Qed.

(** Rounding depends on the value of a rational only. *)
Lemma roundQ_eq (q q' : Q) : (q == q')%Q -> roundQ q = roundQ q'.
Proof.
  intros H. unfold roundQ. rewrite (Qred_complete q q' H). reflexivity.
Qed.

Lemma div_zero (d : Z) : d <> 0 -> div (Fin 0) (Fin d) = Ratio 0.
Proof.
  intros Hd. cbn [div]. destruct (Z.eqb_spec d 0); [contradiction|].
  rewrite (roundQ_eq _ 0); [reflexivity|].
  unfold Qdiv. apply Qmult_0_l.
Qed.

Lemma div_same (d : Z) : d <> 0 -> div (Fin d) (Fin d) = Ratio 1.
Proof.
  intros Hd. cbn [div]. destruct (Z.eqb_spec d 0); [contradiction|].
  rewrite (roundQ_eq _ 1); [reflexivity|].
  apply Qmult_inv_r, inject_Z_nonzero, Hd.
Qed.

(** A pomodoro of zero minutes, saved while the timer is stopped: the clock
    shows 0 and the bar is empty. *)
Lemma getProgress_zero_duration :
  let s := step PressSave
             (step (EditDuration POMODORO "0") (step PressSettings initial)) in
  reachable s
  /\ timeLeft s = 0
  /\ get (timerType s) (timerDurations s) = 0
  /\ getProgress s = Ratio 0
  /\ getProgress s <> Ratio 1.
Proof.
  cbv zeta. split; [repeat constructor|].
  split; [vm_compute; reflexivity|]. split; [vm_compute; reflexivity|].
  split; [vm_compute; reflexivity|]. vm_compute. discriminate.
Qed.

(** C8, as the code has it.  With [total] the duration of the current type:
    the ratio is 0 when [total] is 0 and is the binary64 quotient of the
    binary64 difference [total - timeLeft] by [total] otherwise; it is 0 when
    the clock is full and the duration finite; it is 1 when the clock is
    empty and [total] is finite and not 0; it is NaN when [total] is
    infinite. *)
Theorem getProgress_ratio (s : State) :
  let total := get (timerType s) (timerDurations s) in
  (eqb total 0 = true -> getProgress s = Ratio 0)
  /\ (eqb total 0 = false -> getProgress s = div (sub total (timeLeft s)) total)
  /\ (forall d, total = Fin d -> timeLeft s = Fin d -> getProgress s = Ratio 0)
  /\ (forall d, total = Fin d -> d <> 0 -> isDouble d -> timeLeft s = 0 ->
        getProgress s = Ratio 1)
  /\ (total = PosInf -> getProgress s = RatioNaN).
Proof.
  intros total. unfold getProgress. fold total.
  split; [intros ->; reflexivity|].
  split; [intros ->; reflexivity|].
  split; [|split].
  - intros d -> ->. cbn [eqb]. destruct (Z.eqb_spec d 0) as [|Hd]; [reflexivity|].
    cbn [sub]. rewrite Z.sub_diag. rewrite roundToDouble_exact by (cbn; lia).
    apply div_zero, Hd.
  - intros d -> Hd Hdouble ->. cbn [eqb].
    destruct (Z.eqb_spec d 0); [contradiction|].
    cbn [sub]. rewrite Z.sub_0_r, Hdouble. apply div_same, Hd.
  - intros ->. cbn [eqb]. destruct (timeLeft s); reflexivity.
Qed.

(** The initial screen (full clock), the same screen with an empty clock, and
    a pomodoro whose draft has four hundred digits. *)
Lemma getProgress_ratio_witness :
  getProgress initial = Ratio 0
  /\ getProgress (setTimeLeft 0 initial) = Ratio 1
  /\ getProgress
       (handleSaveSettings
          (handleTempDurationChange POMODORO (toString (10 ^ 400)) initial))
     = RatioNaN.
Proof.
  split; [|split].
  - exact (proj1 (proj2 (proj2 (getProgress_ratio initial))) 1500 eq_refl eq_refl).
  - refine (proj1 (proj2 (proj2 (proj2
              (getProgress_ratio (setTimeLeft 0 initial))))) 1500 eq_refl _ eq_refl eq_refl).
    discriminate.
  - refine (proj2 (proj2 (proj2 (proj2
              (getProgress_ratio
                 (handleSaveSettings
                    (handleTempDurationChange POMODORO (toString (10 ^ 400)) initial))))))
              _).
    vm_compute. reflexivity.
Defined.

(** * Saving the settings *)

Lemma roundMagnitude_pos (a : Z) : 0 < a -> 0 < roundMagnitude a.
Proof.
  intros Ha. pose proof (roundMagnitude_mono 1 a ltac:(lia) ltac:(lia)) as H.
  change (roundMagnitude 1) with 1 in H. lia.
Qed.

Lemma roundToDouble_negative (n : Z) : n < 0 -> leb 0 (roundToDouble n) = false.
Proof.
  intros Hn. unfold roundToDouble.
  pose proof (roundMagnitude_pos (Z.abs n) ltac:(lia)) as Hm.
  destruct (2 ^ 1024 <=? roundMagnitude (Z.abs n)).
  - destruct (Z.ltb_spec n 0); [reflexivity | lia].
  - rewrite leb_Fin. apply Z.leb_gt.
    assert (Z.sgn n = -1) by lia. nia.
Qed.

Lemma leb_zero_mul (p : number) : leb 0 p = true -> leb 0 (mul p 60) = true.
Proof.
  destruct p as [m| | |]; try discriminate; [|reflexivity].
  intros H. rewrite leb_Fin in H. apply Z.leb_le in H. cbn [mul].
  apply roundToDouble_nonneg. lia.
Qed.

Lemma leb_zero_initial (type : TimerTypeKey) :
  leb 0 (get type INITIAL_TIMER_TYPES) = true.
Proof. destruct type; reflexivity. Qed.

(** The loop of [handleSaveSettings] decides each key from its own text. *)
Lemma newDurationsInSeconds_get (temp : PerType string) (type : TimerTypeKey) :
  get type (newDurationsInSeconds temp)
  = if negb (isNaN (parseInt (get type temp))) && leb 0 (parseInt (get type temp))
    then mul (parseInt (get type temp)) 60
    else get type INITIAL_TIMER_TYPES.
Proof.
  unfold newDurationsInSeconds, keys, commitDuration. cbn [fold_left].
  destruct type; cbn [get];
    destruct (negb (isNaN (parseInt (ofPomodoro temp)))
              && leb 0 (parseInt (ofPomodoro temp))),
             (negb (isNaN (parseInt (ofShortBreak temp)))
              && leb 0 (parseInt (ofShortBreak temp))),
             (negb (isNaN (parseInt (ofLongBreak temp)))
              && leb 0 (parseInt (ofLongBreak temp)));
    reflexivity.
Qed.

Lemma handleSaveSettings_durations (s : State) :
  timerDurations (handleSaveSettings s) = newDurationsInSeconds (tempTimerDurations s).
Proof.
  unfold handleSaveSettings. destruct (negb (isActive s)); reflexivity.
Qed.


Lemma roundToDouble_not_NaN (n : Z) : isNaN (roundToDouble n) = false.
Proof.
  unfold roundToDouble.
  destruct (2 ^ 1024 <=? roundMagnitude (Z.abs n)); [destruct (n <? 0)|]; reflexivity.
Qed.

Lemma ltb_zero_not_leb (p : number) : ltb p 0 = true -> leb 0 p = false.
Proof.
  destruct p as [m| | |]; try discriminate; [|reflexivity].
  unfold leb. cbn [ltb eqb]. intros H. apply Z.ltb_lt in H.
  destruct (Z.ltb_spec 0 m), (Z.eqb_spec 0 m); try lia; reflexivity.
Qed.

Lemma leb_zero_not_NaN (p : number) : leb 0 p = true -> isNaN p = false.
Proof. destruct p; [reflexivity | reflexivity | reflexivity | discriminate]. Qed.

Lemma mul_minutes (m : Z) : 0 <= m -> m * 60 <= 2 ^ 53 -> mul (Fin m) 60 = Fin (m * 60).
Proof.
  intros H0 H. cbn [mul]. apply roundToDouble_exact. lia.
Qed.

(** Drafts that are not numbers, or are negative, and do not commit the
    default: "12abc" commits twelve minutes, "1.5" one minute, "3:30" three
    minutes and "-0.5" zero seconds.  The draft "600479950316067" is a
    non-negative integer number of minutes; sixty times it is
    36028797018964020, which is not a binary64 value, and the duration
    committed is 36028797018964016. *)
Lemma handleSaveSettings_commits_prefix :
  get POMODORO
    (timerDurations
       (handleSaveSettings (handleTempDurationChange POMODORO "12abc" initial)))
  = Fin 720
  /\ get POMODORO
       (timerDurations
          (handleSaveSettings (handleTempDurationChange POMODORO "1.5" initial)))
     = Fin 60
  /\ get POMODORO
       (timerDurations
          (handleSaveSettings (handleTempDurationChange POMODORO "3:30" initial)))
     = Fin 180
  /\ get POMODORO
       (timerDurations
          (handleSaveSettings (handleTempDurationChange POMODORO "-0.5" initial)))
     = Fin 0
  /\ get POMODORO INITIAL_TIMER_TYPES = Fin 1500
  /\ parseInt "600479950316067" = Fin 600479950316067
  /\ get POMODORO
       (timerDurations
          (handleSaveSettings
             (handleTempDurationChange POMODORO "600479950316067" initial)))
     = Fin 36028797018964016
  /\ 600479950316067 * 60 = 36028797018964020.
Proof. vm_compute. repeat split; reflexivity. Qed.

(** C6, as the code has it.  [handleSaveSettings] always commits and closes
    the dialog.  For each type, with [text] the draft of that type and
    [parseInt text] the number [parseInt(text, 10)] reads at its start: when
    there is none (NaN) or it is negative, the committed duration is the
    default of that type; otherwise it is the binary64 product of that
    number and 60, which is exactly [m * 60] for [m] minutes with
    [m * 60 <= 2^53].  The committed duration is never negative and never
    NaN.  In particular the drafts "abc" and "-5" for the pomodoro commit
    1500 seconds, and so does the decimal text of every negative integer,
    while the decimal text of [n >= 0] commits the product of the binary64
    value nearest to [n] and 60. *)
Theorem handleSaveSettings_falls_back (s : State) (type : TimerTypeKey) :
  let text := get type (tempTimerDurations s) in
  let committed := get type (timerDurations (handleSaveSettings s)) in
  settingsVisible (handleSaveSettings s) = false
  /\ (parseInt text = NaN -> committed = get type INITIAL_TIMER_TYPES)
  /\ (ltb (parseInt text) 0 = true -> committed = get type INITIAL_TIMER_TYPES)
  /\ (leb 0 (parseInt text) = true -> committed = mul (parseInt text) 60)
  /\ (forall m, parseInt text = Fin m -> 0 <= m -> m * 60 <= 2 ^ 53 ->
        committed = Fin (m * 60))
  /\ leb 0 committed = true
  /\ get POMODORO
       (timerDurations
          (handleSaveSettings (handleTempDurationChange POMODORO "abc" s))) = Fin 1500
  /\ get POMODORO
       (timerDurations
          (handleSaveSettings (handleTempDurationChange POMODORO "-5" s))) = Fin 1500
  /\ (forall n,
        get type
          (timerDurations
             (handleSaveSettings (handleTempDurationChange type (toString n) s)))
        = if n <? 0 then get type INITIAL_TIMER_TYPES
          else mul (roundToDouble n) 60).
Proof.
  intros text committed. subst committed.
  rewrite handleSaveSettings_durations, newDurationsInSeconds_get. fold text.
  split; [unfold handleSaveSettings; destruct (negb (isActive s)); reflexivity|].
  split; [intros ->; reflexivity|].
  split.
  { intros H. rewrite (ltb_zero_not_leb _ H), andb_false_r. reflexivity. }
  split.
  { intros H. rewrite H, (leb_zero_not_NaN _ H). reflexivity. }
  split.
  { intros m Hm H0 H. rewrite Hm. cbn [isNaN negb andb]. rewrite leb_Fin.
    destruct (Z.leb_spec 0 m); [|lia]. apply mul_minutes; assumption. }
  split.
  { destruct (negb (isNaN (parseInt text)) && leb 0 (parseInt text)) eqn:E.
    - apply andb_prop in E. apply leb_zero_mul, E.
    - apply leb_zero_initial. }
  split; [rewrite handleSaveSettings_durations, newDurationsInSeconds_get; reflexivity|].
  split; [rewrite handleSaveSettings_durations, newDurationsInSeconds_get; reflexivity|].
  intros n. rewrite handleSaveSettings_durations, newDurationsInSeconds_get.
  cbn [tempTimerDurations handleTempDurationChange setTempTimerDurations].
  rewrite get_set_same, parseInt_toString, roundToDouble_not_NaN. cbn [negb andb].
  destruct (Z.ltb_spec n 0).
  - rewrite roundToDouble_negative by assumption. reflexivity.
  - rewrite roundToDouble_nonneg by assumption. reflexivity.
Qed.

(** The drafts "  12" (twelve minutes) and "" (no number) for the short
    break. *)
Lemma handleSaveSettings_falls_back_witness :
  get SHORT_BREAK
    (timerDurations
       (handleSaveSettings (handleTempDurationChange SHORT_BREAK "  12" initial)))
  = Fin (12 * 60)
  /\ get SHORT_BREAK
       (timerDurations
          (handleSaveSettings (handleTempDurationChange SHORT_BREAK "" initial)))
     = get SHORT_BREAK INITIAL_TIMER_TYPES.
Proof.
  split.
  - exact (proj1 (proj2 (proj2 (proj2 (proj2
             (handleSaveSettings_falls_back
                (handleTempDurationChange SHORT_BREAK "  12" initial)
                SHORT_BREAK)))))
             12 eq_refl ltac:(lia) ltac:(lia)).
  - exact (proj1 (proj2
             (handleSaveSettings_falls_back
                (handleTempDurationChange SHORT_BREAK "" initial) SHORT_BREAK))
             eq_refl).
Defined.

(** * The text of a number *)

(** Texts that [Number.prototype.toString] gives: fractions, exponents,
    integers beyond 2^53 and the smallest and largest powers of two. *)
Lemma numberToString_samples :
  map (fun xy => numberToString (div (Fin (fst xy)) (Fin (snd xy))))
      [(1, 10); (1, 3); (3, 2); (1500, 60); (90, 60); (10 ^ 21, 1); (2 ^ 60, 1);
       (1, 10 ^ 7); (1, 10 ^ 6); (-5, 4); (9007199254741022, 60); (2, 3);
       (100, 3); (2 ^ 53, 1); (123456789, 1000); (36028797018964016, 60);
       (2 ^ 1023, 1); (1, 2 ^ 1074); (1, 0); (0, 0)]
  = ["0.1"; "0.3333333333333333"; "1.5"; "25"; "1.5"; "1e+21";
     "1152921504606847000"; "1e-7"; "0.000001"; "-1.25"; "150119987579017.03";
     "0.6666666666666666"; "33.333333333333336"; "9007199254740992";
     "123456.789"; "600479950316066.9"; "8.98846567431158e+307"; "5e-324";
     "Infinity"; "NaN"].
Proof. vm_compute. reflexivity. Qed.

(** For the sample integers below 2^53 the decimal with the fewest digits has
    all the digits of the integer. *)
Lemma positiveToString_samples :
  forallb (fun z => String.eqb (positiveToString (inject_Z z)) (toString z))
          (filter (fun z => (0 <? z) && (z <? 2 ^ 53)) sampleIntegers) = true.
Proof. vm_compute. reflexivity. Qed.

Lemma Qred_inject_Z (z : Z) : Qred (inject_Z z) = inject_Z z.
Proof. apply Qred_identity. cbn [Qnum Qden inject_Z]. apply Z.gcd_1_r. Qed.

Lemma sgn_abs_mul (z k : Z) : Z.sgn z * (Z.abs z * k) = z * k.
Proof.
  destruct z as [|p|p]; cbn [Z.sgn Z.abs]; [reflexivity | lia |].
  rewrite <- Pos2Z.opp_pos. lia.
Qed.

Lemma roundHalfEven_one (a : Z) : roundHalfEven a 1 = a.
Proof.
  rewrite <- (Z.mul_1_r a) at 1. apply roundHalfEven_exact. lia.
Qed.

(** An integer below 2^53 in magnitude is a binary64 value. *)
Lemma roundQ_inject_Z (z : Z) :
  Z.abs z < 2 ^ 53 -> roundQ (inject_Z z) = Ratio (inject_Z z).
Proof.
  intros Hz. unfold roundQ. rewrite Qred_inject_Z. cbn [Qnum Qden inject_Z].
  destruct (Z.eqb_spec z 0) as [->|Hnz]; [reflexivity|].
  change (Z.log2 1) with 0. rewrite Z.sub_0_r.
  assert (Ha : 0 < Z.abs z) by lia.
  pose proof (Z.log2_nonneg (Z.abs z)) as Hl0.
  pose proof (Z.log2_spec (Z.abs z) Ha) as [Hlo _].
  assert (Hl : Z.log2 (Z.abs z) < 53) by (apply Z.log2_lt_pow2; lia).
  destruct (Z.leb_spec 0 (Z.log2 (Z.abs z))) as [_|]; [|lia].
  destruct (Z.leb_spec (1 * 2 ^ Z.log2 (Z.abs z)) (Z.abs z)) as [_|]; [|lia].
  rewrite Z.max_l by lia.
  set (p := Z.log2 (Z.abs z) - 52).
  destruct (Z.leb_spec 0 p) as [Hp|Hp].
  - assert (E : p = 0) by lia. rewrite E.
    change (1 * 2 ^ 0) with 1. change (2 ^ 0) with 1.
    rewrite (roundHalfEven_one (Z.abs z)).
    destruct (Z.leb_spec (2 ^ 1024) (Z.abs z * 1)) as [Hbig|_].
    + exfalso. assert (2 ^ 53 < 2 ^ 1024) by (apply Z.pow_lt_mono_r; lia). lia.
    + cbn [andb]. rewrite sgn_abs_mul, Z.mul_1_r, Qred_inject_Z. reflexivity.
  - cbn [andb]. rewrite roundHalfEven_one.
    f_equal. rewrite <- Qred_inject_Z. apply Qred_complete.
    unfold Qeq. cbn [Qnum Qden inject_Z].
    assert (0 < 2 ^ (- p)) by (apply Z.pow_pos_nonneg; lia).
    rewrite Z2Pos.id by assumption. rewrite sgn_abs_mul. lia.
Qed.

Lemma isSafeInteger_inject_Z (z : Z) :
  Z.abs z < 2 ^ 53 -> isSafeInteger (inject_Z z) = true.
Proof.
  intros Hz. unfold isSafeInteger. rewrite Qred_inject_Z. cbn [Qnum Qden inject_Z].
  destruct (Z.ltb_spec (Z.abs z) (2 ^ 53)); [reflexivity | lia].
Qed.

(** The text of an integer below 2^53 in magnitude is the text of its
    digits. *)
Lemma numberToString_integer (z : Z) :
  Z.abs z < 2 ^ 53 -> numberToString (Ratio (inject_Z z)) = toString z.
Proof.
  intros Hz. unfold numberToString.
  rewrite (isSafeInteger_inject_Z z Hz), Qred_inject_Z. reflexivity.
Qed.

Lemma pow2_53 : 2 ^ 53 = 9007199254740992.
Proof. reflexivity. Qed.

(** The dialog shows a whole number of minutes by its digits. *)
Lemma minutesText_exact (m : Z) :
  0 <= m -> m * 60 <= 2 ^ 53 -> minutesText (Fin (m * 60)) = toString m.
Proof.
  intros H0 H. unfold minutesText. cbn [div].
  destruct (Z.eqb_spec 60 0) as [E|_]; [discriminate E|].
  assert (Hm : Z.abs m < 2 ^ 53) by (rewrite pow2_53 in *; lia).
  rewrite (roundQ_eq _ (inject_Z m)).
  - rewrite roundQ_inject_Z by exact Hm. apply numberToString_integer, Hm.
  - rewrite inject_Z_mult. apply Qdiv_mult_l. discriminate.
Qed.

(** * The clock face *)

(** Below 2^53 seconds, the quotient by 60 rounded to binary64 and then
    rounded down is the integer quotient. *)
Lemma floor_div_60 (t : Z) :
  0 <= t < 2 ^ 53 -> floor (div (Fin t) 60) = Fin (t / 60).
Proof.
  intros Ht. cbn [div].
  destruct (Z.eqb_spec 60 0) as [E|_]; [discriminate E|].
  unfold roundQ.
  pose proof (Qred_correct (inject_Z t / inject_Z 60)) as Hred.
  destruct (Qred (inject_Z t / inject_Z 60)) as [n d]. cbn [Qnum Qden].
  assert (Hnd : n * 60 = t * Z.pos d).
  { unfold Qeq, Qdiv, Qmult, Qinv, inject_Z in Hred. cbn in Hred. lia. }
  clear Hred.
  pose proof (Z.div_mod t 60 ltac:(lia)) as Hdm.
  pose proof (Z.mod_pos_bound t 60 ltac:(lia)) as Hmod.
  set (q := t / 60) in *. set (r := t mod 60) in *.
  destruct (Z.eqb_spec n 0) as [Hz|Hnz].
  { cbn [floor]. f_equal. cbn. nia. }
  assert (Hn : 0 < n) by nia.
  rewrite (Z.abs_eq n) by lia.
  pose proof (Z.log2_spec n Hn) as [Hn1 Hn2].
  pose proof (Z.log2_spec (Z.pos d) ltac:(lia)) as [Hd1 Hd2].
  pose proof (Z.log2_nonneg n) as Hln.
  pose proof (Z.log2_nonneg (Z.pos d)) as Hld.
  rewrite pow2_53 in Ht.
  set (e0 := Z.log2 n - Z.log2 (Z.pos d)) in *.
  set (e := if (if 0 <=? e0 then Z.pos d * 2 ^ e0 <=? n else Z.pos d <=? n * 2 ^ (- e0))
            then e0 else e0 - 1).
  assert (He : e <= 47).
  { destruct (Z_le_gt_dec e 47) as [|Hbig]; [assumption|exfalso].
    assert (H48 : Z.pos d * 2 ^ 48 <= n).
    { subst e.
      destruct (Z.leb_spec 0 e0) as [Hpos|Hneg].
      - destruct (Z.leb_spec (Z.pos d * 2 ^ e0) n) as [Hle|_].
        + assert (2 ^ 48 <= 2 ^ e0) by (apply Z.pow_le_mono_r; lia). nia.
        + assert (Hs : Z.succ (Z.log2 (Z.pos d)) + 48 <= Z.log2 n) by lia.
          assert (2 ^ (Z.succ (Z.log2 (Z.pos d)) + 48) <= 2 ^ Z.log2 n)
            by (apply Z.pow_le_mono_r; lia).
          rewrite Z.pow_add_r in * by lia. nia.
      - destruct (Z.pos d <=? n * 2 ^ (- e0)); lia. }
    change (2 ^ 48) with 281474976710656 in H48. nia. }
  set (p := Z.max (e - 52) (-1074)).
  assert (Hp : p <= -5) by (subst p; lia).
  destruct (Z.leb_spec 0 p) as [|_]; [lia|]. cbn [andb].
  assert (Hk : 32 <= 2 ^ (- p)).
  { change 32 with (2 ^ 5). apply Z.pow_le_mono_r; lia. }
  set (k := 2 ^ (- p)) in *.
  replace (Z.sgn n) with 1 by (symmetry; apply Z.sgn_pos; exact Hn).
  rewrite Z.mul_1_l.
  set (m := roundHalfEven (n * k) (Z.pos d)).
  assert (Hq0 : 0 <= q) by (subst q; apply Z.div_pos; lia).
  assert (Hqd : q * Z.pos d <= n) by nia.
  assert (Hlo : q * k <= m).
  { rewrite <- (roundHalfEven_exact (q * k) (Z.pos d)) by lia.
    subst m. apply roundHalfEven_mono; [nia | | lia].
    replace (q * k * Z.pos d) with (q * Z.pos d * k) by lia.
    apply Z.mul_le_mono_nonneg_r; lia. }
  assert (Hhi : m < (q + 1) * k).
  { subst m. unfold roundHalfEven.
    pose proof (Z.div_mod (n * k) (Z.pos d) ltac:(lia)) as HA.
    pose proof (Z.mod_pos_bound (n * k) (Z.pos d) ltac:(lia)) as HR.
    set (Q' := n * k / Z.pos d) in *. set (R' := (n * k) mod Z.pos d) in *.
    assert (H60 : 60 * (Z.pos d * Q' + R') <= (60 * q + 59) * (Z.pos d * k)) by nia.
    assert (HQ : Q' < (q + 1) * k) by nia.
    destruct (Z.ltb_spec (2 * R') (Z.pos d)); [exact HQ|].
    assert (Q' + 1 < (q + 1) * k + 1) by lia.
    assert (Q' <> (q + 1) * k - 1) by nia.
    destruct (Z.pos d <? 2 * R'); [lia|]. destruct (Z.even Q'); lia. }
  cbn [floor]. f_equal.
  rewrite (Qfloor_comp _ _ (Qred_correct (m # Z.to_pos k))).
  unfold Qfloor. rewrite Z2Pos.id by lia.
  symmetry. apply (Z.div_unique m k q (m - q * k)); lia.
Qed.

(** Below 2^53 seconds the clock shows what [formatTime] on integers
    gives. *)
Lemma clockText_formatTime (s : State) (t : Z) :
  timeLeft s = Fin t -> 0 <= t < 2 ^ 53 -> clockText s = formatTime t.
Proof.
  intros Hs Ht. unfold clockText, formatTime. rewrite Hs, floor_div_60 by exact Ht.
  cbn [rem]. destruct (Z.eqb_spec 60 0) as [E|_]; [discriminate E|].
  cbn [ratioOfNumber].
  assert (H0 : 0 <= t / 60) by (apply Z.div_pos; lia).
  assert (H1 : t / 60 <= t) by (apply Z.div_le_upper_bound; lia).
  assert (Hr : 0 <= Z.rem t 60 < 60).
  { rewrite Z.rem_mod_nonneg by lia. apply Z.mod_pos_bound. lia. }
  rewrite pow2_53 in Ht.
  rewrite !numberToString_integer by (rewrite pow2_53; lia).
  reflexivity.
Qed.

Lemma padStart_digit (n : Z) :
  0 <= n < 10 ->
  padStart 2 "0" (toString n) = String "0" (String (digitChar n) "").
Proof. intros Hn. rewrite toString_digit by lia. reflexivity. Qed.

Lemma toString_length_ge_2 (n : Z) :
  10 <= n -> (2 <= String.length (toString n))%nat.
Proof.
  intros Hn. rewrite toString_step, string_app_length by lia.
  pose proof (toString_length_pos (n / 10) ltac:(apply Z.div_pos; lia)).
  simpl. lia.
Qed.

Lemma padStart_long (n : Z) :
  10 <= n -> padStart 2 "0" (toString n) = toString n.
Proof.
  intros Hn. unfold padStart.
  pose proof (toString_length_ge_2 n Hn) as Hlen.
  replace (2 - String.length (toString n))%nat with 0%nat by lia.
  reflexivity.
Qed.

Lemma padStart_length (n : Z) :
  0 <= n < 100 -> String.length (padStart 2 "0" (toString n)) = 2%nat.
Proof.
  intros Hn. destruct (Z_lt_ge_dec n 10).
  - rewrite padStart_digit by lia. reflexivity.
  - rewrite padStart_long by lia. apply toString_length_2. lia.
Qed.

Lemma parseInt_padStart (n : Z) :
  0 <= n -> parseInt (padStart 2 "0" (toString n)) = roundToDouble n.
Proof.
  intros Hn. destruct (Z_lt_ge_dec n 10).
  - rewrite padStart_digit by lia.
    assert (H : 0 <= n < 10) by lia. each_digit H.
  - rewrite padStart_long by lia. apply parseInt_toString.
Qed.

(** One hundred minutes: the minute field has three digits.  A pomodoro of
    10^21 minutes: the minute field is written with an exponent. *)
Lemma formatTime_hundred_minutes :
  formatTime 6000 = "100:00"
  /\ String.length (padStart 2 "0" (toString (6000 / 60))) = 3%nat
  /\ clockText (setTimeLeft 6000 initial) = "100:00"
  /\ clockText (step PressSave
                  (step (EditDuration POMODORO "1000000000000000000000")
                     (step PressSettings initial)))
     = "1e+21:00".
Proof. vm_compute. repeat split; reflexivity. Qed.

(** C9, as the code has it.  For a whole number of seconds from 0 to below
    2^53 the clock shows the minute field, a colon and the second field:
    [seconds / 60] and [seconds mod 60] in decimal, each padded with zeros up
    to two characters and never cut.  Each field reads back as its number.
    The second field always has two characters.  The minute field has two
    characters below 100 minutes; from 100 minutes on it is the whole number
    of minutes, three characters or more. *)
Theorem formatTime_fields (seconds : Z) :
  0 <= seconds -> seconds < 2 ^ 53 ->
  let mm := padStart 2 "0" (toString (seconds / 60)) in
  let ss := padStart 2 "0" (toString (seconds mod 60)) in
  formatTime seconds = mm ++ ":" ++ ss
  /\ parseInt mm = Fin (seconds / 60)
  /\ parseInt ss = Fin (seconds mod 60)
  /\ String.length ss = 2%nat
  /\ (seconds < 6000 -> String.length mm = 2%nat)
  /\ (6000 <= seconds ->
        mm = toString (seconds / 60) /\ (3 <= String.length mm)%nat)
  /\ (forall s, timeLeft s = Fin seconds -> clockText s = mm ++ ":" ++ ss).
Proof.
  intros Hs Hbound mm ss.
  assert (Hm : 0 <= seconds / 60) by (apply Z.div_pos; lia).
  assert (Hm' : seconds / 60 <= seconds) by (apply Z.div_le_upper_bound; lia).
  assert (Hr : 0 <= seconds mod 60 < 60) by (apply Z.mod_pos_bound; lia).
  assert (Hf : formatTime seconds = mm ++ ":" ++ ss).
  { unfold formatTime. rewrite Z.rem_mod_nonneg by lia. reflexivity. }
  split; [exact Hf|].
  split.
  { subst mm. rewrite parseInt_padStart by exact Hm.
    apply roundToDouble_exact. lia. }
  split.
  { subst ss. rewrite parseInt_padStart by lia.
    apply roundToDouble_exact. lia. }
  split; [apply padStart_length; lia|].
  split; [|split].
  - intros Hlt. apply padStart_length. split; [exact Hm|].
    apply Z.div_lt_upper_bound; lia.
  - intros Hge.
    assert (100 <= seconds / 60) by (apply Z.div_le_lower_bound; lia).
    subst mm. rewrite padStart_long by lia.
    split; [reflexivity | apply toString_length_3; lia].
  - intros s Hleft. rewrite <- Hf. apply (clockText_formatTime s seconds Hleft). lia.
Qed.

(** The initial clock, 25:00. *)
Lemma formatTime_fields_witness :
  formatTime 1500
  = padStart 2 "0" (toString (1500 / 60)) ++ ":" ++
    padStart 2 "0" (toString (1500 mod 60)).
Proof.
  apply (formatTime_fields 1500); lia.
Defined.

(** * Properties of the task list *)

Section AddTask.

Import Tasks.

Variable env : Engine.

Lemma nextId_fresh (db : Database) (r : Row) :
  In r (rows db) -> row_id r < nextId db.
Proof.
  unfold nextId. generalize (sequence db). intros z.
  induction (rows db) as [|x l IH]; simpl; [contradiction|].
  intros [->|Hin]; [lia|]. specialize (IH Hin). lia.
Qed.

(** The row just inserted is the one the key selects. *)
Lemma find_inserted (db : Database) (r : Row) :
  row_id r = nextId db ->
  find (fun x => row_id x =? nextId db) (rows db ++ [r])%list = Some r.
Proof.
  intros Hid. pose proof (nextId_fresh db) as Hfresh.
  induction (rows db) as [|x l IH]; simpl.
  - rewrite Hid, Z.eqb_refl. reflexivity.
  - destruct (Z.eqb_spec (row_id x) (nextId db)) as [E|_].
    + specialize (Hfresh x (or_introl eq_refl)). lia.
    + apply IH. intros y Hy. apply Hfresh. right. exact Hy.
Qed.

Lemma isEmpty_true (s : string) : JS.isEmpty s = true <-> s = "".
Proof. destruct s; simpl; split; congruence. Qed.

(** What a call does when the name is not blank and the engine executes both
    statements. *)
Lemma addTask_success (name : string) (priorityArg : option Z) (v : View) :
  JS.trim name <> "" ->
  succeeds env ->
  let p := match priorityArg with Some p => p | None => 1 end in
  let r := mkRow (nextId (database v)) (JS.trim name) 0 p 0 (currentTimestamp env) in
  addTask env name priorityArg v
  = mkView (mkDatabase (rows (database v) ++ [r]) (nextId (database v)))
           (tasks v ++ [toTask r]).
Proof.
  intros Hname [Hins Hsel] p r. unfold addTask.
  destruct (JS.isEmpty (JS.trim name)) eqn:E.
  - apply isEmpty_true in E. contradiction.
  - unfold runInsert, getFirstById. rewrite Hins, Hsel.
    cbn [rows]. fold p. fold r.
    rewrite (find_inserted (database v) r eq_refl). reflexivity.
Qed.


(** C7. For a name whose trimmed form is empty, [addTask] changes neither
    the table nor the list, whatever the priority and whatever the engine
    would do; such are the empty name, a name of spaces, a name of
    ideographic or no-break spaces, and every name of white space only.  For
    any other name, when the engine executes the insert and the select, the
    table gains one row with the trimmed name, the given priority (1 when
    none is given), [completed] 0 and [pomodoroSessions] 0, and the list
    gains that record at its end, with [completed] false. *)
Theorem addTask_blank_or_inserted (name : string) (priorityArg : option Z) (v : View) :
  let p := match priorityArg with Some p => p | None => 1 end in
  let v' := addTask env name priorityArg v in
  (JS.trim name = "" -> v' = v)
  /\ addTask env "" priorityArg v = v
  /\ addTask env "   " priorityArg v = v
  /\ (JS.trim name <> "" -> succeeds env ->
        exists newId createdAt,
          rows (database v')
          = (rows (database v) ++ [mkRow newId (JS.trim name) 0 p 0 createdAt])%list
          /\ tasks v'
             = (tasks v ++ [mkTask newId (JS.trim name) false p 0 createdAt])%list
          /\ forall r, In r (rows (database v)) -> row_id r <> newId)
  /\ addTask env (JS.bytes [227; 128; 128; 194; 160]%N) priorityArg v = v
  /\ (JS.blank name -> v' = v).
Proof.
  intros p v'.
  assert (Hempty : JS.trim name = "" -> v' = v).
  { intros Hblank. subst v'. unfold addTask. rewrite Hblank. reflexivity. }
  split; [exact Hempty|].
  split; [reflexivity|]. split; [reflexivity|].
  split; [|split; [reflexivity|]].
  - intros Hname Hok. subst v'.
    rewrite (addTask_success name priorityArg v Hname Hok). fold p.
    exists (nextId (database v)), (currentTimestamp env).
    split; [reflexivity|]. split; [reflexivity|].
    intros r Hr. pose proof (nextId_fresh _ _ Hr). lia.
  - intros Hblank. apply Hempty, trim_empty, Hblank.
Qed.


End AddTask.

Lemma addTask_blank_or_inserted_witness :
  Tasks.addTask workingEngine "   " (Some 3) oneTask = oneTask
  /\ exists newId createdAt,
       Tasks.rows (Tasks.database (Tasks.addTask workingEngine " Write spec " (Some 3) oneTask))
       = (Tasks.rows (Tasks.database oneTask)
          ++ [Tasks.mkRow newId "Write spec" 0 3 0 createdAt])%list
       /\ Tasks.tasks (Tasks.addTask workingEngine " Write spec " (Some 3) oneTask)
          = (Tasks.tasks oneTask
             ++ [Tasks.mkTask newId "Write spec" false 3 0 createdAt])%list
       /\ forall r, In r (Tasks.rows (Tasks.database oneTask)) -> Tasks.row_id r <> newId.
Proof.
  split.
  - exact (proj1 (addTask_blank_or_inserted workingEngine "   " (Some 3) oneTask)
             eq_refl).
  - refine (proj1 (proj2 (proj2 (proj2
             (addTask_blank_or_inserted workingEngine " Write spec " (Some 3) oneTask))))
             _ (conj eq_refl eq_refl)).
    vm_compute. discriminate.
Defined.


(** * Further properties of the timer *)

Import Runs.

(** X1. Once the effect has run, running it again changes nothing: a phase
    that has just ended stops the timer, so the end of one phase never ends
    the next one as well, even when the next duration is 0. *)
Theorem timerEffect_runs_once (s : State) :
  let s1 := fst (timerEffect s) in
  fst (timerEffect s1) = s1
  /\ (forall v, snd (timerEffect s) = PhaseEnded v ->
        timerEffect s1 = (s1, NothingToDo)).
Proof.
  cbv zeta.
  assert (Hcases :
            (timerEffect s = (s, IntervalSet)
             /\ isActive s && ltb 0 (timeLeft s) = true)
            \/ timerEffect s = (phaseCompletion s, PhaseEnded (negb (isMuted s)))
            \/ (timerEffect s = (s, NothingToDo)
                /\ isActive s && ltb 0 (timeLeft s) = false
                /\ isActive s && eqb (timeLeft s) 0 = false)).
  { unfold timerEffect.
    destruct (isActive s && ltb 0 (timeLeft s)); [left; auto|].
    destruct (isActive s && eqb (timeLeft s) 0); [right; left; auto|].
    right; right; auto. }
  destruct Hcases as [[-> E1] | [-> | (-> & E1 & E2)]]; cbn [fst snd].
  - split; [|discriminate]. unfold timerEffect. rewrite E1. reflexivity.
  - rewrite timerEffect_stopped by apply phaseCompletion_full.
    split; reflexivity.
  - split; [|discriminate]. unfold timerEffect. rewrite E1, E2. reflexivity.
Qed.

Lemma handle_keeps_count (e : Event) (s : State) :
  pomodoroCount (handle e s) = pomodoroCount s.
Proof.
  destruct e; cbn [handle]; try reflexivity.
  - unfold handleDurationChange.
    destruct (TimerTypeKey_eqb (timerType s) type && negb (isActive s)); reflexivity.
  - unfold handleSaveSettings. destruct (negb (isActive s)); reflexivity.
  - unfold openSettings. destruct (negb (settingsVisible s)); reflexivity.
  - unfold intervalCallback.
    destruct (isActive s && ltb 0 (timeLeft s)); reflexivity.
Qed.

(** X2. No handler touches the count of completed pomodoros.  An event
    changes it only through the effect that follows, by exactly one, and only
    when the handler leaves a running pomodoro with an empty clock. *)
Theorem pomodoroCount_only_by_completion (e : Event) (s : State) :
  pomodoroCount (handle e s) = pomodoroCount s
  /\ (pomodoroCount (step e s) = pomodoroCount s
      \/ (pomodoroCount (step e s) = pomodoroCount s + 1
          /\ timerType (handle e s) = POMODORO
          /\ isActive (handle e s) = true
          /\ timeLeft (handle e s) = 0)).
Proof.
  split; [apply handle_keeps_count|].
  unfold step, timerEffect.
  destruct (isActive (handle e s)) eqn:Ha; cbn [andb].
  - destruct (ltb 0 (timeLeft (handle e s))); cbn [fst];
      [left; apply handle_keeps_count|].
    destruct (eqb (timeLeft (handle e s)) 0) eqn:Hz; cbn [fst];
      [|left; apply handle_keeps_count].
    apply eqb_eq in Hz as [Hz _].
    unfold phaseCompletion.
    destruct (timerType (handle e s)) eqn:Ht;
      try (left; cbn; apply handle_keeps_count).
    right. rewrite <- (handle_keeps_count e s).
    destruct (Z.rem (pomodoroCount (handle e s) + 1) 4 =? 0); cbn; auto.
  - cbn [fst]. left. apply handle_keeps_count.
Qed.

(** *** What holds between two events *)

Lemma isNumber_initial (type : TimerTypeKey) : isNumber (get type INITIAL_TIMER_TYPES).
Proof. destruct type; reflexivity. Qed.

(** Whatever the drafts, a save commits numbers that are not negative. *)
Lemma newDurationsInSeconds_nonneg (temp : PerType string) (type : TimerTypeKey) :
  leb 0 (get type (newDurationsInSeconds temp)) = true.
Proof.
  rewrite newDurationsInSeconds_get.
  destruct (negb (isNaN (parseInt (get type temp))) && leb 0 (parseInt (get type temp)))
    eqn:E.
  - apply andb_prop in E. apply leb_zero_mul, E.
  - apply leb_zero_initial.
Qed.

Lemma newDurationsInSeconds_isNumber (temp : PerType string) (type : TimerTypeKey) :
  isNumber (get type (newDurationsInSeconds temp)).
Proof.
  rewrite newDurationsInSeconds_get.
  destruct (negb (isNaN (parseInt (get type temp))) && leb 0 (parseInt (get type temp))).
  - apply isNumber_mul.
  - apply isNumber_initial.
Qed.

Lemma ltb_zero_not_eqb (t : number) : ltb 0 t = true -> eqb t 0 = false.
Proof.
  destruct t as [z| | |]; try reflexivity. cbn [ltb eqb]. intros H.
  apply Z.ltb_lt in H. apply Z.eqb_neq. lia.
Qed.

Lemma leb_zero_cases (t : number) :
  leb 0 t = true -> ltb 0 t = false -> eqb t 0 = true.
Proof.
  destruct t as [z| | |]; try discriminate. unfold leb. cbn [ltb eqb].
  intros H1 H2. rewrite H2 in H1. cbn [orb] in H1.
  apply Z.eqb_eq in H1. apply Z.eqb_eq. lia.
Qed.

Lemma sub_one_nonneg (t : number) : ltb 0 t = true -> leb 0 (sub t 1) = true.
Proof.
  destruct t as [z| | |]; try discriminate; [|reflexivity].
  cbn [ltb sub]. intros H. apply Z.ltb_lt in H.
  apply roundToDouble_nonneg. lia.
Qed.

Lemma settled_handled (s : State) : settled s -> handled s.
Proof.
  intros [Hd Hc Hr He Hn Hb]. split; auto.
Qed.

Lemma handle_settled (e : Event) (s : State) :
  raisedByScreen e = true -> settled s -> handled (handle e s).
Proof.
  intros He Hs. pose proof Hs as [Hd Hc Hr Hz Hn [Hbt Hbd]].
  destruct e; cbn [handle]; try discriminate He.
  - (* start / pause *)
    split; cbn; auto.
  - (* reset *)
    split; cbn; auto.
  - (* switch *)
    split; cbn; auto.
  - (* typing in the dialog *)
    split; cbn; auto.
  - (* save *)
    unfold handleSaveSettings.
    destruct (isActive s) eqn:Ha; cbn [negb].
    + split; cbn.
      * apply newDurationsInSeconds_nonneg.
      * exact Hc.
      * auto.
      * exact Hn.
      * split; [exact Hbt | apply newDurationsInSeconds_isNumber].
    + split; cbn.
      * apply newDurationsInSeconds_nonneg.
      * apply newDurationsInSeconds_nonneg.
      * auto.
      * exact Hn.
      * split; apply newDurationsInSeconds_isNumber.
  - (* cancel *)
    split; cbn; auto.
  - (* open the dialog *)
    unfold openSettings. destruct (negb (settingsVisible s)); split; cbn; auto.
  - (* mute *)
    split; cbn; auto.
  - (* the interval fires *)
    unfold intervalCallback.
    destruct (isActive s) eqn:Ha; cbn [andb]; [|apply settled_handled, Hs].
    destruct (ltb 0 (timeLeft s)) eqn:Hpos; [|apply settled_handled, Hs].
    split; cbn; auto.
    + apply sub_one_nonneg, Hpos.
    + split; [apply isNumber_sub | exact Hbd].
Qed.

Lemma timerEffect_settles (s : State) :
  handled s -> settled (fst (timerEffect s)).
Proof.
  intros [Hd Hc Hz Hn [Hbt Hbd]]. unfold timerEffect.
  destruct (isActive s) eqn:Ha; cbn [andb].
  - destruct (ltb 0 (timeLeft s)) eqn:Hpos; cbn [fst].
    + split; auto.
      intros H0. rewrite (ltb_zero_not_eqb _ Hpos) in H0. discriminate.
    + rewrite (leb_zero_cases _ Hc Hpos). cbn [fst].
      destruct (phaseCompletion_full s) as (Hfull & Hstop & Hdur).
      split.
      * intros type. rewrite Hdur. apply Hd.
      * rewrite Hfull, Hdur. apply Hd.
      * rewrite Hstop. discriminate.
      * rewrite Hfull. auto.
      * unfold phaseCompletion. destruct (timerType s); cbn; try assumption.
        destruct (Z.rem (pomodoroCount s + 1) 4 =? 0); cbn; lia.
      * rewrite Hfull, Hdur. split; [apply Hbd | exact Hbd].
  - cbn [fst]. split; auto.
    + rewrite Ha. discriminate.
    + intros H0. destruct (Hz H0); [discriminate | assumption].
Qed.

Lemma settled_initial : settled initial.
Proof.
  split; cbn; try lia; try discriminate; try reflexivity.
  - intros type. apply leb_zero_initial.
  - split; [reflexivity | apply isNumber_initial].
Qed.

(** X3. In every state the screen reaches from its initial state by events
    it raises itself, no duration is negative or NaN, the clock is not
    negative and not NaN, a running timer has time left, an empty clock is
    shown only for a duration of 0, and the count is not negative. *)
Theorem settled_along_runs (es : list Event) :
  forallb raisedByScreen es = true -> settled (run es initial).
Proof.
  unfold run. generalize initial settled_initial.
  induction es as [|e es IH]; intros s Hs Hes; [exact Hs|].
  cbn [forallb] in Hes. apply andb_prop in Hes as [He Hes].
  cbn [fold_left]. apply IH; [|exact Hes].
  apply timerEffect_settles, handle_settled; assumption.
Qed.

(** Start, let one second pass, open the dialog and save "0" minutes for the
    running pomodoro. *)
Lemma settled_along_runs_witness :
  settled (run [PressStartPause; IntervalFires; PressSettings;
                EditDuration POMODORO "0"; PressSave] initial).
Proof.
  apply (settled_along_runs
           [PressStartPause; IntervalFires; PressSettings;
            EditDuration POMODORO "0"; PressSave]).
  reflexivity.
Defined.

(** *** Whole minutes *)

Lemma exactMinutes_text (d : number) :
  exactMinutes d ->
  exists m, d = Fin (m * 60) /\ 0 <= m /\ m * 60 <= 2 ^ 53
            /\ parseInt (minutesText d) = Fin m.
Proof.
  intros (m & H0 & H & ->). exists m. repeat split; try assumption.
  rewrite minutesText_exact, parseInt_toString by assumption.
  apply roundToDouble_exact. rewrite pow2_53 in *. lia.
Qed.

Lemma exactMinutes_initial (type : TimerTypeKey) :
  exactMinutes (get type INITIAL_TIMER_TYPES).
Proof.
  destruct type; [exists 25 | exists 5 | exists 15];
    (split; [lia|split; [rewrite pow2_53; lia | reflexivity]]).
Qed.

(** *** Pausing *)

Lemma setIsActive_same (s : State) : setIsActive (isActive s) s = s.
Proof. destruct s; reflexivity. Qed.

(** X4. Pausing keeps the time.  Let the timer still run with time left
    after [k] seconds.  Pausing it then stops it with the clock it shows; a
    pause of any length [n] changes nothing; starting it again gives back the
    state before the pause; and [m] more seconds lead where [k + m] seconds
    without a pause would have led, with as many phases ended. *)
Theorem pause_keeps_clock (s : State) (k n m : nat) :
  isActive (fst (countdown k s)) = true ->
  ltb 0 (timeLeft (fst (countdown k s))) = true ->
  let running := fst (countdown k s) in
  let paused := step PressStartPause running in
  let resumed := step PressStartPause (fst (countdown n paused)) in
  isActive paused = false
  /\ timeLeft paused = timeLeft running
  /\ countdown n paused = (paused, O)
  /\ resumed = running
  /\ fst (countdown m resumed) = fst (countdown (k + m) s)
  /\ snd (countdown (k + m) s) = (snd (countdown k s) + snd (countdown m resumed))%nat.
Proof.
  intros Hact Hpos running paused resumed.
  assert (Hp : paused = setIsActive false running).
  { subst paused. unfold step. cbn [handle]. unfold toggleTimer.
    fold running in Hact. rewrite Hact. cbn [negb].
    rewrite timerEffect_stopped by reflexivity. reflexivity. }
  assert (Hn : countdown n paused = (paused, O)).
  { apply countdown_stopped. rewrite Hp. reflexivity. }
  assert (Hr : resumed = running).
  { subst resumed. rewrite Hn. cbn [fst]. rewrite Hp.
    unfold step. cbn [handle]. unfold toggleTimer.
    cbn [isActive setIsActive negb].
    fold running in Hact, Hpos.
    replace (setIsActive true (setIsActive false running)) with running
      by (rewrite <- (setIsActive_same running) at 1; rewrite Hact; reflexivity).
    unfold timerEffect. rewrite Hact, Hpos. reflexivity. }
  split; [rewrite Hp; reflexivity|].
  split; [rewrite Hp; reflexivity|].
  split; [exact Hn|].
  split; [exact Hr|].
  rewrite Hr, countdown_add. subst running.
  destruct (countdown k s) as [s1 c1]. cbn [fst snd].
  destruct (countdown m s1) as [s2 c2]. split; reflexivity.
Qed.

(** Ten seconds, a pause of a minute, twenty more seconds. *)
Lemma pause_keeps_clock_witness :
  let s := step PressStartPause initial in
  fst (countdown 20 (step PressStartPause
                       (fst (countdown 60
                               (step PressStartPause (fst (countdown 10 s)))))))
  = fst (countdown (10 + 20) s).
Proof.
  cbv zeta.
  refine (proj1 (proj2 (proj2 (proj2 (proj2
            (pause_keeps_clock (step PressStartPause initial) 10 60 20 _ _)))))).
  - vm_compute. reflexivity.
  - vm_compute. reflexivity.
Defined.

(** *** The settings dialog *)

Lemma PerType_ext {A : Type} (r r' : PerType A) :
  (forall type, get type r = get type r') -> r = r'.
Proof.
  intros H. destruct r, r'.
  pose proof (H POMODORO). pose proof (H SHORT_BREAK). pose proof (H LONG_BREAK).
  cbn in *. congruence.
Qed.

(** X5. Opening the settings and saving them without an edit commits the
    durations there were, when these are whole minutes of at most 2^53
    seconds.  The clock of a running timer is kept; the clock of a stopped
    timer is filled again, also when it was paused part-way. *)
Theorem save_without_edit (s : State) :
  settingsVisible s = false ->
  (forall type, exactMinutes (get type (timerDurations s))) ->
  let s' := handleSaveSettings (openSettings s) in
  timerDurations s' = timerDurations s
  /\ settingsVisible s' = false
  /\ timeLeft s'
     = (if isActive s then timeLeft s else get (timerType s) (timerDurations s))
  /\ timerType s' = timerType s
  /\ isActive s' = isActive s
  /\ pomodoroCount s' = pomodoroCount s.
Proof.
  intros Hclosed Hwhole s'.
  assert (Hd : newDurationsInSeconds (tempTimerDurations (openSettings s))
               = timerDurations s).
  { apply PerType_ext. intros type. rewrite newDurationsInSeconds_get.
    unfold openSettings. rewrite Hclosed. cbn [negb tempTimerDurations setTempTimerDurations].
    assert (Ht : get type
                   (mkPerType (minutesText (ofPomodoro (timerDurations s)))
                              (minutesText (ofShortBreak (timerDurations s)))
                              (minutesText (ofLongBreak (timerDurations s))))
                 = minutesText (get type (timerDurations s)))
      by (destruct type; reflexivity).
    rewrite Ht.
    destruct (exactMinutes_text _ (Hwhole type)) as (m & Hm & H0 & Hb & ->).
    rewrite Hm. cbn [isNaN negb andb]. rewrite leb_Fin.
    destruct (Z.leb_spec 0 m); [|lia]. apply mul_minutes; assumption. }
  assert (Hsame : forall f : State -> bool,
             (forall v x, f (setSettingsVisible v x) = f x) ->
             (forall v x, f (setTempTimerDurations v x) = f x) ->
             f (openSettings s) = f s).
  { intros f H1 H2. unfold openSettings. rewrite Hclosed. cbn [negb].
    rewrite H2, H1. reflexivity. }
  subst s'. unfold handleSaveSettings. rewrite Hd.
  rewrite (Hsame isActive) by reflexivity.
  unfold openSettings. rewrite Hclosed. cbn [negb].
  destruct (isActive s) eqn:Ha; cbn; rewrite ?Ha; auto 10.
Qed.

(** The initial screen, paused after it has run for a while. *)
Lemma save_without_edit_witness :
  timeLeft (handleSaveSettings (openSettings (setTimeLeft 900 initial))) = 1500.
Proof.
  refine (proj1 (proj2 (proj2
            (save_without_edit (setTimeLeft 900 initial) eq_refl _)))).
  intros type. apply exactMinutes_initial.
Defined.

Lemma typeEdits_only_drafts (edits : list (TimerTypeKey * string)) :
  forall s, exists drafts, typeEdits edits s = setTempTimerDurations drafts s.
Proof.
  unfold typeEdits.
  induction edits as [|[type text] edits IH]; intros s; cbn [fold_left fst snd].
  - exists (tempTimerDurations s). destruct s; reflexivity.
  - destruct (IH (handleTempDurationChange type text s)) as [drafts ->].
    exists drafts. reflexivity.
Qed.

(** X6. Cancelling discards what was typed: after the dialog is opened,
    edited in any way and cancelled, the state differs from the one before at
    most in the hidden drafts, and opening the dialog again shows what it
    showed the first time. *)
Theorem cancel_discards_edits (s : State) (edits : list (TimerTypeKey * string)) :
  settingsVisible s = false ->
  let s' := handleCancelSettings (typeEdits edits (openSettings s)) in
  (exists drafts, s' = setTempTimerDurations drafts s)
  /\ openSettings s' = openSettings s.
Proof.
  intros Hclosed s'.
  destruct (typeEdits_only_drafts edits (openSettings s)) as [drafts Hd].
  assert (Hs' : s' = setTempTimerDurations drafts s).
  { subst s'. rewrite Hd. unfold openSettings. rewrite Hclosed.
    destruct s; cbn in *. subst. reflexivity. }
  split; [exists drafts; exact Hs'|].
  rewrite Hs'. unfold openSettings.
  cbn [settingsVisible timerDurations setTempTimerDurations].
  rewrite Hclosed. reflexivity.
Qed.

Lemma cancel_discards_edits_witness :
  openSettings
    (handleCancelSettings
       (typeEdits [(POMODORO, "50"); (LONG_BREAK, "x")] (openSettings initial)))
  = openSettings initial.
Proof.
  exact (proj2 (cancel_discards_edits initial
                  [(POMODORO, "50"); (LONG_BREAK, "x")] eq_refl)).
Defined.

(** *** The mute switch *)

Lemma timerEffect_muted (b : bool) (s : State) :
  fst (timerEffect (setIsMuted b s)) = setIsMuted b (fst (timerEffect s)).
Proof.
  unfold timerEffect. cbn [isActive timeLeft setIsMuted].
  destruct (isActive s && ltb 0 (timeLeft s)); [reflexivity|].
  destruct (isActive s && eqb (timeLeft s) 0); [|reflexivity].
  cbn [fst]. unfold phaseCompletion. cbn [timerType pomodoroCount timerDurations setIsMuted].
  destruct (timerType s); try reflexivity.
  destruct (Z.rem (pomodoroCount s + 1) 4 =? 0); reflexivity.
Qed.

(** X7. The mute switch decides only whether the end of a phase vibrates:
    every event leads to the same state, up to the switch itself, whether the
    screen is muted or not, and the effect vibrates exactly when a phase ends
    unmuted. *)
Theorem mute_changes_only_the_pulse (e : Event) (s : State) (b : bool) :
  (exists b', step e (setIsMuted b s) = setIsMuted b' (step e s))
  /\ (forall v, snd (timerEffect s) = PhaseEnded v -> v = negb (isMuted s)).
Proof.
  split.
  - unfold step.
    assert (H : exists b', handle e (setIsMuted b s) = setIsMuted b' (handle e s)).
    { destruct e; cbn [handle].
      - exists b. reflexivity.
      - exists b. reflexivity.
      - exists b. reflexivity.
      - exists b. unfold handleDurationChange. cbn [timerType isActive setIsMuted].
        destruct (TimerTypeKey_eqb (timerType s) type && negb (isActive s)); reflexivity.
      - exists b. reflexivity.
      - exists b. unfold handleSaveSettings. cbn [isActive setIsMuted].
        destruct (negb (isActive s)); reflexivity.
      - exists b. reflexivity.
      - exists b. unfold openSettings. cbn [settingsVisible setIsMuted].
        destruct (negb (settingsVisible s)); reflexivity.
      - exists (negb b). reflexivity.
      - exists b. unfold intervalCallback. cbn [isActive timeLeft setIsMuted].
        destruct (isActive s && ltb 0 (timeLeft s)); reflexivity. }
    destruct H as [b' ->]. exists b'. apply timerEffect_muted.
  - intros v. unfold timerEffect.
    destruct (isActive s && ltb 0 (timeLeft s)); [discriminate|].
    destruct (isActive s && eqb (timeLeft s) 0); [|discriminate].
    cbn [snd]. congruence.
Qed.

(** *** The progress bar and the clock face, continued *)





(** X9. Each second of a running timer takes one second off a clock of at
    most 2^53 seconds, and the bar then shows the binary64 value nearest to
    the part of the duration [d] that has passed, one second more than
    before. *)
Theorem getProgress_per_second (s : State) (d t : Z) :
  isActive s = true ->
  get (timerType s) (timerDurations s) = Fin d ->
  timeLeft s = Fin t ->
  0 < t <= d ->
  d <= 2 ^ 53 ->
  timeLeft (intervalCallback s) = Fin (t - 1)
  /\ getProgress s = roundQ (inject_Z (d - t) / inject_Z d)
  /\ getProgress (intervalCallback s) = roundQ (inject_Z (d - t + 1) / inject_Z d).
Proof.
  intros Hact Hd Ht Hr Hsafe.
  rewrite (intervalCallback_exact s t Hact Ht) by lia.
  split; [reflexivity|].
  unfold getProgress. cbn [timerType timerDurations timeLeft setTimeLeft].
  rewrite Hd, Ht. cbn [eqb sub].
  destruct (Z.eqb_spec d 0) as [|_]; [lia|].
  rewrite !roundToDouble_exact by lia. cbn [div].
  destruct (Z.eqb_spec d 0) as [|_]; [lia|].
  split; [reflexivity|]. do 3 f_equal. lia.
Qed.

Lemma getProgress_per_second_witness :
  getProgress (intervalCallback (step PressStartPause initial))
  = roundQ (inject_Z (1500 - 1500 + 1) / inject_Z 1500).
Proof.
  refine (proj2 (proj2 (getProgress_per_second (step PressStartPause initial) 1500 1500
                          eq_refl eq_refl eq_refl _ _))).
  - lia.
  - rewrite pow2_53. lia.
Defined.

(** The digits of a field of the clock face, read back exactly. *)
Lemma parseDigits_padStart (n : Z) (rest : string) :
  0 <= n ->
  parseDigits (padStart 2 "0" (toString n) ++ rest) false 0 = parseDigits rest true n.
Proof.
  intros Hn. destruct (Z_lt_ge_dec n 10).
  - rewrite padStart_digit by lia.
    assert (H : 0 <= n < 10) by lia. each_digit H.
  - rewrite padStart_long by lia. apply parseDigits_toString, Hn.
Qed.



(** *** The cycle of phases *)

Lemma rem4_eqb (n : Z) : (Z.rem n 4 =? 0) = (n mod 4 =? 0).
Proof.
  destruct (Z.eqb_spec (Z.rem n 4) 0) as [H|H], (Z.eqb_spec (n mod 4) 0) as [H'|H'];
    try reflexivity.
  - apply rem4_mod4 in H. contradiction.
  - apply rem4_mod4 in H'. contradiction.
Qed.

Lemma phaseCompletion_round (s : State) :
  timerType s = POMODORO ->
  timerType (phaseCompletion (phaseCompletion s)) = POMODORO
  /\ pomodoroCount (phaseCompletion (phaseCompletion s)) = pomodoroCount s + 1.
Proof.
  intros Ht. unfold phaseCompletion. rewrite Ht.
  destruct (Z.rem (pomodoroCount s + 1) 4 =? 0); cbn; split; reflexivity.
Qed.

Lemma phaseCompletion_after_pomodoro (s : State) :
  timerType s = POMODORO ->
  timerType (phaseCompletion s)
  = (if (pomodoroCount s + 1) mod 4 =? 0 then LONG_BREAK else SHORT_BREAK).
Proof.
  intros Ht. unfold phaseCompletion. rewrite Ht, rem4_eqb.
  destruct ((pomodoroCount s + 1) mod 4 =? 0); reflexivity.
Qed.

(** X11. Every fourth pomodoro is followed by the long break.  When phases
    end one after the other, starting at a pomodoro, then after [2 * k] ends
    the type is POMODORO again and the count has grown by [k]; the phase that
    follows that pomodoro is LONG_BREAK when the new count is a multiple of 4
    and SHORT_BREAK otherwise. *)
Theorem long_break_every_fourth (s : State) (k : nat) :
  timerType s = POMODORO ->
  let s' := Nat.iter (2 * k) phaseCompletion s in
  timerType s' = POMODORO
  /\ pomodoroCount s' = pomodoroCount s + Z.of_nat k
  /\ timerDurations s' = timerDurations s
  /\ timerType (phaseCompletion s')
     = (if (pomodoroCount s + Z.of_nat k + 1) mod 4 =? 0
        then LONG_BREAK else SHORT_BREAK).
Proof.
  intros Ht. cbv zeta.
  assert (H : timerType (Nat.iter (2 * k) phaseCompletion s) = POMODORO
              /\ pomodoroCount (Nat.iter (2 * k) phaseCompletion s)
                 = pomodoroCount s + Z.of_nat k
              /\ timerDurations (Nat.iter (2 * k) phaseCompletion s)
                 = timerDurations s).
  { induction k as [|k (IHt & IHc & IHd)].
    - cbn. split; [exact Ht|]. split; [lia | reflexivity].
    - replace (2 * S k)%nat with (S (S (2 * k))) by lia.
      rewrite 2 Nat.iter_succ.
      destruct (phaseCompletion_round _ IHt) as (Ht' & Hc').
      split; [exact Ht'|]. split; [rewrite Hc', IHc; lia|].
      destruct (phaseCompletion_full (Nat.iter (2 * k) phaseCompletion s))
        as (_ & _ & Hd1).
      destruct (phaseCompletion_full
                  (phaseCompletion (Nat.iter (2 * k) phaseCompletion s)))
        as (_ & _ & Hd2).
      congruence. }
  destruct H as (H1 & H2 & H3). repeat split; try assumption.
  rewrite (phaseCompletion_after_pomodoro _ H1), H2. reflexivity.
Qed.

(** The fourth pomodoro of a fresh screen. *)
Lemma long_break_every_fourth_witness :
  timerType (phaseCompletion (Nat.iter (2 * 3) phaseCompletion initial)) = LONG_BREAK.
Proof.
  exact (proj2 (proj2 (proj2 (long_break_every_fourth initial 3 eq_refl)))).
Defined.

(** *** The clock of a running timer *)

(** X19. A timer of [D < 2^53] seconds that is reset and started shows, after
    each of its first [D - 1] seconds, the time that is left: after [k]
    seconds the text of the clock is [formatTime (D - k)], and no two of
    these texts are the same. *)
Theorem clock_shows_each_second (s : State) (D : Z) (k : nat) :
  get (timerType s) (timerDurations s) = Fin D ->
  D < 2 ^ 53 ->
  Z.of_nat k < D ->
  let s0 := toggleTimer (resetTimer s) in
  clockText (fst (countdown k s0)) = formatTime (D - Z.of_nat k)
  /\ (forall j : nat, Z.of_nat j < D ->
        clockText (fst (countdown j s0)) = clockText (fst (countdown k s0)) -> j = k).
Proof.
  intros HD Hsafe Hk s0.
  assert (Hact : isActive s0 = true) by reflexivity.
  assert (Hleft : timeLeft s0 = Fin D) by (subst s0; cbn; exact HD).
  assert (Hshow : forall i : nat, Z.of_nat i < D ->
            clockText (fst (countdown i s0)) = formatTime (D - Z.of_nat i)).
  { intros i Hi.
    rewrite (countdown_before_end s0 D i Hact Hleft) by lia. cbn [fst].
    apply clockText_formatTime; [reflexivity | lia]. }
  split; [apply Hshow, Hk|].
  intros j Hj Heq. rewrite (Hshow j Hj), (Hshow k Hk) in Heq.
  assert (Hfields : forall a b, 0 <= a -> 0 <= b -> formatTime a = formatTime b -> a = b).
  { clear. intros a b Ha Hb Heq.
    assert (Hf : forall x, 0 <= x ->
              parseDigits (formatTime x) false 0 = Some (x / 60)
              /\ formatTime x
                 = padStart 2 "0" (toString (x / 60)) ++
                   String ":" (padStart 2 "0" (toString (x mod 60)))).
    { intros x Hx.
      assert (E : formatTime x
                  = padStart 2 "0" (toString (x / 60)) ++
                    String ":" (padStart 2 "0" (toString (x mod 60)))).
      { unfold formatTime. rewrite Z.rem_mod_nonneg by lia. reflexivity. }
      split; [|exact E]. rewrite E.
      rewrite parseDigits_padStart by (apply Z.div_pos; lia). reflexivity. }
    destruct (Hf a Ha) as [Pa Ea]. destruct (Hf b Hb) as [Pb Eb].
    assert (Hq : a / 60 = b / 60) by (rewrite Heq, Pb in Pa; congruence).
    assert (Hr : a mod 60 = b mod 60).
    { rewrite Ea, Eb, Hq in Heq. apply string_app_cancel in Heq.
      injection Heq as Heq.
      pose proof (Z.mod_pos_bound a 60 ltac:(lia)).
      pose proof (Z.mod_pos_bound b 60 ltac:(lia)).
      pose proof (parseDigits_padStart (a mod 60) "" ltac:(lia)) as Qa.
      pose proof (parseDigits_padStart (b mod 60) "" ltac:(lia)) as Qb.
      rewrite Heq, Qb in Qa. cbn [parseDigits] in Qa. congruence. }
    rewrite (Z.div_mod a 60), (Z.div_mod b 60) by lia. rewrite Hq, Hr. reflexivity. }
  apply Hfields in Heq; lia.
Qed.

(** The first pomodoro, ten seconds after its start. *)
Lemma clock_shows_each_second_witness :
  clockText (fst (countdown 10 (toggleTimer (resetTimer initial)))) = formatTime (1500 - 10).
Proof.
  refine (proj1 (clock_shows_each_second initial 1500 10 eq_refl _ _)).
  - rewrite pow2_53. lia.
  - lia.
Defined.



(** * Further properties of the task list *)

Section AddTaskMore.

Import Tasks Store.

Variable env : Engine.

(** The three ways a call of [addTask] can end. *)
Lemma addTask_cases (name : string) (priorityArg : option Z) (v : View) :
  let p := match priorityArg with Some p => p | None => 1 end in
  let r := mkRow (nextId (database v)) (trim name) 0 p 0 (currentTimestamp env) in
  let db' := mkDatabase (rows (database v) ++ [r]) (nextId (database v)) in
  (addTask env name priorityArg v = v
   /\ (trim name = "" \/ insertFails env = true))
  \/ (addTask env name priorityArg v = mkView db' (tasks v)
      /\ trim name <> "" /\ insertFails env = false /\ selectFails env = true)
  \/ (addTask env name priorityArg v = mkView db' (tasks v ++ [toTask r])
      /\ trim name <> "" /\ insertFails env = false /\ selectFails env = false).
Proof.
  intros p r db'. unfold addTask.
  destruct (isEmpty (trim name)) eqn:E.
  { left. split; [reflexivity|]. left. apply isEmpty_true, E. }
  assert (Hname : trim name <> "").
  { intros H. apply isEmpty_true in H. congruence. }
  unfold runInsert. destruct (insertFails env) eqn:Hi.
  { left. split; [reflexivity|]. right. reflexivity. }
  fold p. fold r. fold db'.
  unfold getFirstById. destruct (selectFails env) eqn:Hs.
  - right; left. auto.
  - right; right. subst db'. cbn [rows].
    rewrite (find_inserted (database v) r eq_refl). auto.
Qed.

(** X12. The names [addTask] rejects are exactly those made of white space
    only (the empty name among them): for such a name nothing changes, and
    for any other name a working engine makes the table and the list longer
    by one. *)
Theorem addTask_rejects_exactly_blank (name : string) (priorityArg : option Z) (v : View) :
  (blank name -> addTask env name priorityArg v = v)
  /\ (~ blank name -> succeeds env ->
        List.length (rows (database (addTask env name priorityArg v)))
        = S (List.length (rows (database v)))
        /\ List.length (tasks (addTask env name priorityArg v))
           = S (List.length (tasks v))).
Proof.
  split.
  - intros Hb. apply trim_empty in Hb. unfold addTask. rewrite Hb. reflexivity.
  - intros Hnb [Hi Hs].
    destruct (addTask_cases name priorityArg v)
      as [(_ & [He|Hf]) | [(_ & _ & _ & Hf) | (-> & _)]].
    + apply trim_empty in He. contradiction.
    + congruence.
    + congruence.
    + cbn [database tasks rows]. rewrite !length_app. cbn. split; lia.
Qed.

(** X13. Whatever the engine does, every row a call of [addTask] adds has a
    name that is not empty, does not start and does not end with a white
    space character, and is left unchanged by trimming. *)
Theorem addTask_stores_clean_names (name : string) (priorityArg : option Z) (v : View) (r : Row) :
  In r (rows (database (addTask env name priorityArg v))) ->
  ~ In r (rows (database v)) ->
  row_name r <> ""
  /\ trim (row_name r) = row_name r
  /\ (forall w t, In w whiteSpaces -> row_name r <> w ++ t)
  /\ (forall t w, In w whiteSpaces -> row_name r <> t ++ w).
Proof.
  intros Hin Hnew.
  assert (Hr : row_name r = trim name /\ trim name <> "").
  { destruct (addTask_cases name priorityArg v)
      as [(Heq & _) | [(Heq & Hn & _) | (Heq & Hn & _)]];
      rewrite Heq in Hin; cbn [database rows] in Hin.
    - contradiction.
    - apply in_app_or in Hin as [Hin|[<-|[]]]; [contradiction|]. auto.
    - apply in_app_or in Hin as [Hin|[<-|[]]]; [contradiction|]. auto. }
  destruct Hr as [-> Hn]. split; [exact Hn|]. apply trim_clean.
Qed.

(** X14. When the insert is rejected, [addTask] changes nothing.  When the
    insert is executed and the select that follows is rejected, the table
    has the new row and the list does not show it. *)
Theorem addTask_when_the_engine_fails (name : string) (priorityArg : option Z) (v : View) :
  (insertFails env = true -> addTask env name priorityArg v = v)
  /\ (insertFails env = false -> selectFails env = true -> trim name <> "" ->
        tasks (addTask env name priorityArg v) = tasks v
        /\ exists r,
             rows (database (addTask env name priorityArg v))
             = (rows (database v) ++ [r])%list
             /\ row_name r = trim name
             /\ row_priority r = match priorityArg with Some p => p | None => 1 end).
Proof.
  split.
  - intros Hi. unfold addTask, runInsert. rewrite Hi.
    destruct (isEmpty (trim name)); reflexivity.
  - intros Hi Hs Hn.
    destruct (addTask_cases name priorityArg v)
      as [(_ & [He|Hf]) | [(-> & _) | (_ & _ & _ & Hf)]]; try congruence.
    cbn [database tasks rows]. split; [reflexivity|].
    eexists. split; [reflexivity|]. split; reflexivity.
Qed.

End AddTaskMore.

Lemma addTask_rejects_exactly_blank_witness :
  Tasks.addTask workingEngine "   " None oneTask = oneTask
  /\ List.length (Tasks.tasks (Tasks.addTask workingEngine " a " None oneTask)) = 2%nat.
Proof.
  split.
  - refine (proj1 (addTask_rejects_exactly_blank workingEngine "   " None oneTask) _).
    apply trim_empty. reflexivity.
  - refine (proj2 (proj2 (addTask_rejects_exactly_blank workingEngine " a " None oneTask)
                     _ (conj eq_refl eq_refl))).
    intros H. apply trim_empty in H. vm_compute in H. discriminate H.
Defined.

Lemma addTask_stores_clean_names_witness :
  Tasks.row_name (Tasks.mkRow 2 "Write spec" 0 1 0 "2025-01-01 09:00:00") <> "".
Proof.
  refine (proj1 (addTask_stores_clean_names workingEngine "  Write spec  " None oneTask
                   (Tasks.mkRow 2 "Write spec" 0 1 0 "2025-01-01 09:00:00") _ _)).
  - right. left. reflexivity.
  - intros [H|[]]. discriminate H.
Defined.

Lemma addTask_when_the_engine_fails_witness :
  Tasks.addTask (Tasks.mkEngine true false "") "Write spec" None oneTask = oneTask
  /\ Tasks.tasks (Tasks.addTask (Tasks.mkEngine false true "") "Write spec" None oneTask)
     = Tasks.tasks oneTask.
Proof.
  split.
  - exact (proj1 (addTask_when_the_engine_fails
                    (Tasks.mkEngine true false "") "Write spec" None oneTask) eq_refl).
  - refine (proj1 (proj2 (addTask_when_the_engine_fails
                            (Tasks.mkEngine false true "") "Write spec" None oneTask)
                     eq_refl eq_refl _)).
    vm_compute. discriminate.
Defined.

(** *** Reading the table *)

Section FetchTasks.

Import Tasks Store.

Lemma insertRow_perm (r : Row) (l : list Row) : Permutation (insertRow r l) (r :: l).
Proof.
  induction l as [|x l IH]; cbn [insertRow]; [reflexivity|].
  destruct (before r x); [reflexivity|].
  rewrite IH. apply perm_swap.
Qed.

Lemma orderRows_perm (l : list Row) : Permutation (orderRows l) l.
Proof.
  induction l as [|r l IH]; cbn [orderRows fold_right]; [reflexivity|].
  rewrite insertRow_perm. constructor. exact IH.
Qed.

Lemma byPriorityDesc_cons (t : Task) (l : list Task) :
  byPriorityDesc (t :: l) = true
  <-> (forall u, In u l -> priority u <= priority t) /\ byPriorityDesc l = true.
Proof.
  cbn [byPriorityDesc]. rewrite andb_true_iff, forallb_forall.
  split; intros [H1 H2]; split; try assumption; intros u Hu.
  - apply Z.leb_le, H1, Hu.
  - apply Z.leb_le, H1, Hu.
Qed.

Lemma before_true (a b : Row) :
  before a b = true -> row_priority b <= row_priority a.
Proof.
  unfold before. intros H. apply orb_prop in H as [H|H].
  - apply Z.ltb_lt in H. lia.
  - apply andb_prop in H as [H _]. apply Z.eqb_eq in H. lia.
Qed.

Lemma before_false (a b : Row) :
  before a b = false -> taskOrder (toTask b) (toTask a).
Proof.
  unfold before, taskOrder. cbn [toTask priority createdAt]. intros H.
  apply orb_false_elim in H as [H1 H2]. apply Z.ltb_ge in H1.
  destruct (Z.eq_dec (row_priority a) (row_priority b)) as [E|E]; [|left; lia].
  right. split; [congruence|].
  rewrite E, Z.eqb_refl in H2. cbn [andb] in H2.
  destruct (String.leb_total (row_createdAt a) (row_createdAt b)); congruence.
Qed.

Lemma before_order (a b : Row) :
  before a b = true -> taskOrder (toTask a) (toTask b).
Proof.
  unfold before, taskOrder. cbn [toTask priority createdAt]. intros H.
  apply orb_prop in H as [H|H].
  - left. apply Z.ltb_lt, H.
  - apply andb_prop in H as [H1 H2]. right. split; [apply Z.eqb_eq, H1 | exact H2].
Qed.

Lemma insertRow_byPriority (r : Row) (l : list Row) :
  byPriorityDesc (map toTask l) = true ->
  byPriorityDesc (map toTask (insertRow r l)) = true.
Proof.
  induction l as [|x l IH]; cbn [insertRow map]; intros Hl.
  - reflexivity.
  - apply byPriorityDesc_cons in Hl as [Hx Hl].
    destruct (before r x) eqn:E; cbn [map].
    + apply byPriorityDesc_cons. split.
      * intros u [<-|Hu]; cbn [toTask priority].
        -- apply before_true, E.
        -- specialize (Hx u Hu). apply before_true in E.
           cbn [toTask priority] in Hx. lia.
      * apply byPriorityDesc_cons. split; assumption.
    + apply byPriorityDesc_cons. split; [|apply IH, Hl].
      intros u Hu. apply in_map_iff in Hu as (y & <- & Hy).
      apply (Permutation_in _ (insertRow_perm r l)) in Hy as [<-|Hy].
      * destruct (before_false _ _ E) as [H|[H _]];
          cbn [toTask priority] in *; lia.
      * apply Hx, in_map, Hy.
Qed.

Lemma insertRow_sorted (r : Row) (l : list Row) :
  Sorted taskOrder (map toTask l) -> Sorted taskOrder (map toTask (insertRow r l)).
Proof.
  induction l as [|x l IH]; cbn [insertRow map]; intros Hl.
  - repeat constructor.
  - destruct (before r x) eqn:E; cbn [map].
    + constructor; [exact Hl|]. constructor. apply before_order, E.
    + inversion Hl as [|? ? Hs Hh]; subst. constructor; [apply IH, Hs|].
      destruct l as [|y l]; cbn [insertRow map].
      * constructor. apply before_false, E.
      * destruct (before r y); cbn [map]; constructor.
        -- apply before_false, E.
        -- inversion Hh; subst. assumption.
Qed.

Lemma orderRows_ordered (l : list Row) :
  byPriorityDesc (map toTask (orderRows l)) = true
  /\ Sorted taskOrder (map toTask (orderRows l)).
Proof.
  induction l as [|r l [IH1 IH2]]; cbn [orderRows fold_right].
  - split; [reflexivity | constructor].
  - split; [apply insertRow_byPriority, IH1 | apply insertRow_sorted, IH2].
Qed.

Variable env : Engine.


(** X15. When the select is executed, [fetchTasks] replaces the list by the
    rows of the table, nothing lost and nothing twice, with [completed] as a
    boolean, in descending order of priority, and neighbours of equal
    priority in ascending order of [createdAt]; the table is not changed.
    When the select is rejected, nothing changes. *)
Theorem fetchTasks_lists_the_table_in_order (v : View) :
  (selectFails env = false ->
     Permutation (tasks (fetchTasks env v)) (map toTask (rows (database v)))
     /\ byPriorityDesc (tasks (fetchTasks env v)) = true
     /\ Sorted taskOrder (tasks (fetchTasks env v))
     /\ database (fetchTasks env v) = database v)
  /\ (selectFails env = true -> fetchTasks env v = v).
Proof.
  unfold fetchTasks, getAllOrdered. split; intros ->; [|reflexivity].
  cbn [tasks database].
  destruct (orderRows_ordered (rows (database v))) as [H1 H2].
  split; [apply Permutation_map, orderRows_perm|]. auto.
Qed.



End FetchTasks.

Lemma fetchTasks_lists_the_table_in_order_witness :
  Tasks.byPriorityDesc
    (Tasks.tasks
       (Store.fetchTasks workingEngine
          (Tasks.addTask workingEngine "Write spec" (Some 3) oneTask))) = true.
Proof.
  exact (proj1 (proj2 (proj1
           (fetchTasks_lists_the_table_in_order workingEngine
              (Tasks.addTask workingEngine "Write spec" (Some 3) oneTask))
           eq_refl))).
Defined.


Section Keys.

Import Tasks Store.

Variable env : Engine.

Lemma nextId_not_a_key (db : Database) : ~ In (nextId db) (map row_id (rows db)).
Proof.
  intros H. apply in_map_iff in H as (r & Hr & Hin).
  pose proof (nextId_fresh db r Hin). lia.
Qed.

Lemma NoDup_snoc {A : Type} (l : list A) (a : A) :
  NoDup l -> ~ In a l -> NoDup (l ++ [a]).
Proof.
  intros Hl Ha. apply (Permutation_NoDup (l := a :: l)).
  - apply Permutation_cons_append.
  - constructor; assumption.
Qed.

(** X17. [addTask] and [fetchTasks] keep the keys apart, whatever the engine
    does: if no two rows of the table and no two records of the list share
    an id, and every record of the list is a row of the table, the same holds
    afterwards.  The list is rendered with [task.id] as the key of each
    item. *)
Theorem keysDistinct_preserved (name : string) (priorityArg : option Z) (v : View) :
  keysDistinct v ->
  keysDistinct (addTask env name priorityArg v)
  /\ keysDistinct (fetchTasks env v).
Proof.
  intros [Hrows Hlist Hincl]. split.
  - pose proof (nextId_not_a_key (database v)) as Hfresh.
    assert (Hrows' : NoDup (map row_id
                      (rows (database v)
                       ++ [mkRow (nextId (database v)) (trim name) 0
                                 (match priorityArg with Some p => p | None => 1 end)
                                 0 (currentTimestamp env)]))).
    { rewrite map_app. apply NoDup_snoc; assumption. }
    destruct (addTask_cases env name priorityArg v)
      as [(-> & _) | [(-> & _) | (-> & _)]].
    + split; assumption.
    + split; cbn [database tasks rows]; [exact Hrows' | exact Hlist |].
      rewrite map_app. intros x Hx. apply in_or_app. left. apply Hincl, Hx.
    + split; cbn [database tasks rows]; [exact Hrows' | |].
      * rewrite map_app. apply NoDup_snoc; [exact Hlist|].
        intros Hin. apply Hfresh, Hincl, Hin.
      * rewrite !map_app. intros x Hx.
        apply in_app_or in Hx as [Hx|Hx]; apply in_or_app;
          [left; apply Hincl, Hx | right; exact Hx].
  - unfold fetchTasks, getAllOrdered.
    destruct (selectFails env); [split; assumption|].
    assert (Hids : map id (map toTask (orderRows (rows (database v))))
                   = map row_id (orderRows (rows (database v)))).
    { rewrite map_map. reflexivity. }
    pose proof (Permutation_map row_id (orderRows_perm (rows (database v)))) as Hperm.
    split; cbn [database tasks]; [exact Hrows | |]; rewrite Hids.
    + apply (Permutation_NoDup (Permutation_sym Hperm)), Hrows.
    + intros x Hx. apply (Permutation_in _ Hperm), Hx.
Qed.

End Keys.

Lemma keysDistinct_oneTask : Store.keysDistinct oneTask.
Proof.
  split; cbn.
  - repeat constructor. intros [].
  - repeat constructor. intros [].
  - intros x Hx. exact Hx.
Qed.

Lemma keysDistinct_preserved_witness :
  Store.keysDistinct (Tasks.addTask workingEngine "Write spec" None oneTask)
  /\ Store.keysDistinct (Store.fetchTasks workingEngine oneTask).
Proof.
  exact (keysDistinct_preserved workingEngine "Write spec" None oneTask
           keysDistinct_oneTask).
Defined.

(** *** Creating the table *)

Section Migration.

Import Tasks Store.

(** X18. [migrateDbIfNeeded] never drops or changes a table that exists and
    never lowers the version marker; a marker below 1 becomes exactly 1, so
    running it again changes nothing.  It creates the table exactly when the
    marker was 0: a file whose marker is below 0 gets the marker 1 and its
    table, or the lack of one, is left as it was. *)
Theorem migrateDbIfNeeded_keeps_the_table (f : File) :
  (forall t, tasksTable f = Some t -> tasksTable (migrateDbIfNeeded f) = Some t)
  /\ user_version f <= user_version (migrateDbIfNeeded f)
  /\ 1 <= user_version (migrateDbIfNeeded f)
  /\ (user_version f = 0 -> tasksTable f = None ->
        tasksTable (migrateDbIfNeeded f) = Some (mkDatabase [] 0)
        /\ user_version (migrateDbIfNeeded f) = 1)
  /\ (user_version f <> 0 -> tasksTable (migrateDbIfNeeded f) = tasksTable f)
  /\ (1 <= user_version f -> migrateDbIfNeeded f = f)
  /\ migrateDbIfNeeded (migrateDbIfNeeded f) = migrateDbIfNeeded f
  /\ (user_version f < 1 -> user_version (migrateDbIfNeeded f) = 1)
  /\ (user_version f < 0 ->
        migrateDbIfNeeded f = mkFile 1 (journalWal f) (tasksTable f))
  /\ (user_version f = 0 ->
        migrateDbIfNeeded f
        = mkFile 1 true (match tasksTable f with
                         | Some t => Some t
                         | None => Some (mkDatabase [] 0)
                         end)).
Proof.
  unfold migrateDbIfNeeded, DATABASE_VERSION, createTasksTable.
  destruct (Z.leb_spec 1 (user_version f)) as [Hv|Hv].
  - split; [auto|]. split; [lia|]. split; [lia|].
    split; [intros; lia|]. split; [reflexivity|]. split; [reflexivity|].
    split; [destruct (Z.leb_spec 1 (user_version f)); [reflexivity | lia]|].
    split; [intros; lia|]. split; intros; lia.
  - destruct (Z.eqb_spec (user_version f) 0) as [Hz|Hz];
      cbn [user_version tasksTable journalWal].
    + split; [intros t Ht; rewrite Ht; reflexivity|].
      split; [lia|]. split; [lia|].
      split; [intros _ Hn; rewrite Hn; split; reflexivity|].
      split; [intros; contradiction|]. split; [intros; lia|].
      split; [reflexivity|]. split; [reflexivity|].
      split; [intros; lia | reflexivity].
    + split; [auto|]. split; [lia|]. split; [lia|].
      split; [intros; contradiction|]. split; [reflexivity|].
      split; [intros; lia|]. split; [reflexivity|]. split; [reflexivity|].
      split; [reflexivity | intros; contradiction].
Qed.

End Migration.

(** A fresh file, and a file whose marker is below 0. *)
Lemma migrateDbIfNeeded_keeps_the_table_witness :
  (Store.tasksTable (Store.migrateDbIfNeeded (Store.mkFile 0 false None))
   = Some (Tasks.mkDatabase [] 0)
   /\ Store.user_version (Store.migrateDbIfNeeded (Store.mkFile 0 false None)) = 1)
  /\ Store.user_version (Store.migrateDbIfNeeded (Store.mkFile (-3) false None)) = 1.
Proof.
  split.
  - exact (proj1 (proj2 (proj2 (proj2
             (migrateDbIfNeeded_keeps_the_table (Store.mkFile 0 false None)))))
             eq_refl eq_refl).
  - exact (proj1 (proj2 (proj2 (proj2 (proj2 (proj2 (proj2 (proj2
             (migrateDbIfNeeded_keeps_the_table (Store.mkFile (-3) false None)))))))))
             eq_refl).
Defined.
